(** * minimal-mixtral: prompt assembly, batch answering and the chat loop

    A shallow embedding of [parallel_solver.py] and [chat.py].

    - Python [str] is [string]; the literal newline is [LF].
    - A Python list is a [list]; [enumerate] is [enumerate], [zip] is
      stdpp's [zip], [" ".join] is [String.concat].
    - A raised exception is a value of [exn]; a function that may raise
      returns a [result].
    - The session store is a Python [dict], whose iteration order is the
      insertion order: an association list [store], read by [dict_get] and
      updated in place by [dict_set].
    - The files on disk are a [gmap] from file name to content.
    - The inference engine ([llm.generate]) is a variable of the sections
      that use it. *)

From Stdlib Require Import String Ascii List Lia.
From Stdlib Require Import Decimal DecimalString DecimalNat DecimalFacts.
From stdpp Require Import base list strings gmap.

(** ** Strings *)

Definition LF : string := String "010"%char "".

(** [s * n] for a string [s]. *)
Fixpoint str_repeat (s : string) (n : nat) : string :=
  match n with
  | 0 => ""
  | S n' => s +:+ str_repeat s n'
  end.

(** [str(i)] for a non-negative integer, as an f-string renders it. *)
Definition str_of_nat (n : nat) : string :=
  NilZero.string_of_uint (Nat.to_uint n).

(** [needle in haystack] *)
Definition str_contains (needle haystack : string) : bool :=
  match String.index 0 needle haystack with
  | Some _ => true
  | None => false
  end.

(** [enumerate(l)] *)
Definition enumerate {A : Type} (l : list A) : list (nat * A) :=
  imap (fun i x => (i, x)) l.

(** ** Exceptions *)

Inductive exn : Type :=
| KeyError (key : string)
| ValueError (msg : string)
| IndexError
| EOFError
| KeyboardInterrupt.

Inductive result (A : Type) : Type :=
| Ok (a : A)
| Raise (e : exn).
Arguments Ok {A} a.
Arguments Raise {A} e.

#[global] Instance result_ret : MRet result := fun A a => Ok a.
#[global] Instance result_bind : MBind result := fun A B k r =>
  match r with
  | Ok a => k a
  | Raise e => Raise e
  end.

(** [d[key]] on an entry that may be absent. *)
Definition getitem {A : Type} (key : string) (field : option A) : result A :=
  match field with
  | Some a => Ok a
  | None => Raise (KeyError key)
  end.

(** ** Prompt builder ([build_conversation_prompt], the same text in both
    source files) *)

Module Prompt.

Definition BOS : string := "<s>".
Definition EOS : string := "</s>".
Definition INST_START : string := "[INST]".
Definition INST_END : string := "[/INST]".

Definition turn_count_error : exn :=
  ValueError "User messages and bot messages must be of equal length".

Definition build_conversation_prompt
    (user_messages bot_messages : list string) : result string :=
  if decide (length user_messages <> length bot_messages + 1)
  then Raise turn_count_error
  else
    let prompt_parts := [BOS] in
    let prompt_parts :=
      foldl (fun parts '(user_msg, bot_msg) =>
               parts ++ [INST_START; user_msg; INST_END; bot_msg; EOS])
            prompt_parts (zip user_messages bot_messages) in
    (* user_messages[-1] *)
    match last user_messages with
    | None => Raise IndexError
    | Some final_msg =>
        let prompt_parts := prompt_parts ++ [INST_START; final_msg; INST_END] in
        Ok (String.concat " " prompt_parts)
    end.

(** The prompt as the specification words it: tokens addressed by index. *)
Definition spec_tokens (U B : list string) : list string :=
  ["<s>"]
  ++ flat_map (fun i => ["[INST]"; nth i U ""; "[/INST]"; nth i B ""; "</s>"])
              (seq 0 (length B))
  ++ ["[INST]"; nth (length B) U ""; "[/INST]"].

Definition spec_prompt (U B : list string) : string :=
  String.concat " " (spec_tokens U B).

End Prompt.

(** ** Sessions ([parallel_solver.py]) *)

(** One entry of [questions.json]: the question text and, when the key is
    present, the ordered answer choices. *)
Record question : Type := mk_question {
  question_text : string;
  options : option (list string);
}.

(** A session is a [dict] with a fixed set of keys, each of which is either
    absent or holds a value of the type the program stores under it. *)
Record session : Type := mk_session {
  question_raw : option question;
  question_formatted : option string;
  answers : option (list string);
  final_answers : option (list string);
  formatted_output : option string;
}.

Definition set_answers (texts : list string) (s : session) : session :=
  mk_session (question_raw s) (question_formatted s) (Some texts)
             (final_answers s) (formatted_output s).

Definition set_final_answers (texts : list string) (s : session) : session :=
  mk_session (question_raw s) (question_formatted s) (answers s)
             (Some texts) (formatted_output s).

Definition set_formatted_output (text : string) (s : session) : session :=
  mk_session (question_raw s) (question_formatted s) (answers s)
             (final_answers s) (Some text).

(** The session store: question id to session, in insertion order. *)
Abbreviation store := (list (string * session)).

(** [d.get(key)] *)
Fixpoint dict_get {V : Type} (key : string) (d : list (string * V)) : option V :=
  match d with
  | [] => None
  | (k, v) :: rest => if decide (k = key) then Some v else dict_get key rest
  end.

(** [d[key] = v]: an existing key keeps its position, a new one goes last. *)
Fixpoint dict_set {V : Type} (key : string) (v : V) (d : list (string * V))
    : list (string * V) :=
  match d with
  | [] => [(key, v)]
  | (k, v0) :: rest =>
      if decide (k = key) then (k, v) :: rest
      else (k, v0) :: dict_set key v rest
  end.

(** [generate_sessions]: the formatted text of one question. *)
Definition format_question (q : question) : string :=
  let question_formatted := "QUESTION: " +:+ question_text q +:+ LF in
  let question_formatted :=
    match options q with
    | Some opts =>
        foldl (fun acc '(opt_id, option) =>
                 acc +:+ ("OPTION " +:+ str_of_nat opt_id +:+ ": "
                          +:+ option +:+ LF))
              question_formatted (enumerate opts)
    | None => question_formatted
    end in
  let question_formatted :=
    question_formatted +:+
      (LF +:+ LF +:+ " Please provide the answer and explain your reasoning!") in
  let question_formatted :=
    question_formatted +:+
      (" If there are options to choose from, do not provide an answer different from the options."
       +:+ LF) in
  question_formatted.

(** [generate_sessions]: the body of the loop, for one question.  The state
    is the store built so far and what has been printed, one entry per
    [print] call. *)
Definition generate_step (state : store * list string)
    (item : string * question) : store * list string :=
  let '(sessions, stdout) := state in
  let '(question_id, q) := item in
  let question_formatted := format_question q in
  (dict_set question_id
            (mk_session (Some q) (Some question_formatted) None None None)
            sessions,
   stdout ++ [question_formatted]).

(** [generate_sessions(raw_questions)] returns the new store; the second
    component is what it prints. *)
Definition generate_sessions (raw_questions : list (string * question))
    : store * list string :=
  foldl generate_step ([], []) raw_questions.

(** [format_session_outputs]: the body of the loop, for one session.  The
    session is written only by the last statement. *)
Definition format_session (s : session) : result session :=
  q ← getitem "question_formatted" (question_formatted s);
  let formatted_output := q +:+ LF +:+ LF +:+ LF in
  the_answers ← getitem "answers" (answers s);
  let formatted_output :=
    foldl (fun acc '(i, answer) =>
             acc +:+ (str_repeat "-" 45 +:+ "[ANSWER " +:+ str_of_nat i +:+ "]"
                      +:+ str_repeat "-" 45 +:+ LF
                      +:+ answer +:+ LF +:+ LF +:+ LF))
          formatted_output (enumerate the_answers) in
  let formatted_output :=
    match final_answers s with
    | Some finals =>
        foldl (fun acc '(i, final_answer) =>
                 acc +:+ (str_repeat "-" 43 +:+ "[FINAL ANSWER]"
                          +:+ str_repeat "-" 43 +:+ LF
                          +:+ final_answer +:+ LF +:+ LF +:+ LF))
              formatted_output (enumerate (A:=string) finals)
    | None => formatted_output
    end in
  Ok (set_formatted_output formatted_output s).

(** [format_session_outputs(sessions)] mutates the sessions in store order.
    The result is the store as the call leaves it and the exception it
    raised, if any: the sessions before the failing one are already
    rewritten, the failing one and those after it are untouched. *)
Fixpoint format_session_outputs (sessions : store) : store * option exn :=
  match sessions with
  | [] => ([], None)
  | (question_id, s) :: rest =>
      match format_session s with
      | Raise e => (sessions, Some e)
      | Ok s' =>
          let '(rest', raised) := format_session_outputs rest in
          ((question_id, s') :: rest', raised)
      end
  end.

(** [save_file]: the loop over [enumerate(sessions.items())], writing to the
    open file whose content so far is [written]. *)
Fixpoint save_loop (items : list (nat * (string * session))) (written : string)
    : string * option exn :=
  match items with
  | [] => (written, None)
  | (qid, (question_id, s)) :: rest =>
      let chunk :=
        str_repeat "=" 100 +:+ LF +:+ "Question #" +:+ str_of_nat qid
        +:+ " (ID" +:+ question_id +:+ ")" +:+ LF
        +:+ str_repeat "=" 100 +:+ LF in
      match getitem "formatted_output" (formatted_output s) with
      | Raise e => (written, Some e)
      | Ok transcript =>
          let chunk := chunk +:+ (transcript +:+ LF +:+ LF +:+ LF) in
          save_loop rest (written +:+ chunk)
      end
  end.

(** [save_file(sessions, filename)]: [open(filename, "w")] truncates the file,
    the loop writes to it, and leaving the [with] block closes it, also when
    the loop raises. *)
Definition save_file (files : gmap string string) (sessions : store)
    (filename : option string) : gmap string string * option exn :=
  let filename := default "answers.txt" filename in
  let '(content, raised) := save_loop (enumerate sessions) "" in
  (<[filename := content]> files, raised).

(** ** Batch answerer *)

Record SamplingParams : Type := mk_params {
  n : nat;
  best_of : nat;
  max_tokens : nat;
}.

(** One call of [llm.generate]: the prompts and the sampling configuration. *)
Record request : Type := mk_request {
  req_prompts : list string;
  req_params : SamplingParams;
}.

(** What a round leaves behind: the store, the requests submitted to the
    engine, the console output, and the exception raised, if any. *)
Record round : Type := mk_round {
  rd_sessions : store;
  rd_requests : list request;
  rd_stdout : list string;
  rd_raised : option exn;
}.

(** Round 1, the first loop: the prompt for one session. *)
Definition question_prompt (s : session) : result string :=
  q ← getitem "question_formatted" (question_formatted s);
  Prompt.build_conversation_prompt [q] [].

Definition final_instruction : string :=
  "Please provide the CORRECT final answer based on the question and the independent answers above. Explain why please!"
  +:+ LF.

(** Round 2, the first loop: the prompt for one session. *)
Definition final_prompt (s : session) : result string :=
  session_history ← getitem "formatted_output" (formatted_output s);
  let prompt_text :=
    session_history +:+ LF +:+ str_repeat "~" 10 +:+ LF +:+ LF
    +:+ final_instruction in
  Prompt.build_conversation_prompt [prompt_text] [].

Section Engine.

(** [llm.generate(prompts, params)]: for each prompt, the texts of the
    returned candidates. *)
Variable llm_generate : list string -> SamplingParams -> list (list string).

(** The loop [for qid, question_id in enumerate(sessions.keys())] that
    stores [raw[qid]] in [sessions[question_id]]. *)
Fixpoint attach (setter : list string -> session -> session)
    (raw : list (list string)) (keys : list (nat * string)) (sessions : store)
    : store * option exn :=
  match keys with
  | [] => (sessions, None)
  | (qid, question_id) :: rest =>
      match raw !! qid with
      | None => (sessions, Some IndexError)
      | Some outputs =>
          match dict_get question_id sessions with
          | None => (sessions, Some (KeyError question_id))
          | Some s =>
              attach setter raw rest
                     (dict_set question_id (setter outputs s) sessions)
          end
      end
  end.

Definition answer_batch_questions (sessions : store)
    (n best_of : option nat) : round :=
  let n := default 7 n in
  let best_of := default 10 best_of in
  match mapM (fun item => question_prompt item.2) sessions with
  | Raise e => mk_round sessions [] [] (Some e)
  | Ok prompts =>
      let params := mk_params n best_of 1024 in
      let raw_answers := llm_generate prompts params in
      let '(sessions', raised) :=
        attach set_answers raw_answers (enumerate sessions.*1) sessions in
      mk_round sessions' [mk_request prompts params]
               ["Generating answers..."] raised
  end.

Definition answer_batch_questions_final (sessions : store)
    (n best_of : option nat) : round :=
  let n := default 1 n in
  let best_of := default 3 best_of in
  match mapM (fun item => final_prompt item.2) sessions with
  | Raise e => mk_round sessions [] [] (Some e)
  | Ok prompts =>
      let params := mk_params n best_of 1024 in
      let raw_final_answers := llm_generate prompts params in
      let '(sessions', raised) :=
        attach set_final_answers raw_final_answers (enumerate sessions.*1)
               sessions in
      mk_round sessions' [mk_request prompts params]
               ["Generating final answers..."] raised
  end.

End Engine.

(** ** The batch driver: the body of the [while True] loop of
    [parallel_solver.py], once [questions.json] has been read *)

(** The store, the files on disk, the requests the engine has received and
    the console output. *)
Record world : Type := mk_world {
  w_sessions : store;
  w_files : gmap string string;
  w_requests : list request;
  w_stdout : list string;
}.

(** A statement of the driver: the world it leaves and the exception it
    raised, if any. *)
Definition stmt : Type := world -> world * option exn.

(** [a; b]: an exception in [a] is not caught, so [b] does not run. *)
Definition and_then (a b : stmt) : stmt := fun w =>
  match a w with
  | (w', None) => b w'
  | stopped => stopped
  end.

Infix ">>" := and_then (at level 65, right associativity).

Definition run_generate (raw_questions : list (string * question)) : stmt :=
  fun w =>
    let '(sessions, printed) := generate_sessions raw_questions in
    (mk_world sessions (w_files w) (w_requests w) (w_stdout w ++ printed), None).

Definition run_round (answer : store -> round) : stmt := fun w =>
  let r := answer (w_sessions w) in
  (mk_world (rd_sessions r) (w_files w) (w_requests w ++ rd_requests r)
            (w_stdout w ++ rd_stdout r),
   rd_raised r).

Definition run_format : stmt := fun w =>
  let '(sessions, raised) := format_session_outputs (w_sessions w) in
  (mk_world sessions (w_files w) (w_requests w) (w_stdout w), raised).

Definition run_save (filename : string) : stmt := fun w =>
  let '(files, raised) := save_file (w_files w) (w_sessions w) (Some filename) in
  (mk_world (w_sessions w) files (w_requests w) (w_stdout w), raised).

Section Driver.

Variable llm_generate : list string -> SamplingParams -> list (list string).

Definition batch_iteration (raw_questions : list (string * question)) : stmt :=
  run_generate raw_questions
  >> run_round (fun sessions =>
                  answer_batch_questions llm_generate sessions (Some 7) (Some 10))
  >> run_format
  >> run_save "answers.txt"
  >> run_round (fun sessions =>
                  answer_batch_questions_final llm_generate sessions
                                               (Some 1) (Some 3))
  >> run_format
  >> run_save "answers_final.txt".

End Driver.

(** ** Interactive driver ([chat.py]) *)

Module Chat.

Definition ESC : string := String "027"%char "".
Definition RED : string := ESC +:+ "[91m".
Definition BLUE : string := ESC +:+ "[94m".
Definition BOLD : string := ESC +:+ "[1m".
Definition RESET : string := ESC +:+ "[0m".
Definition USER : string := BOLD +:+ RED +:+ "User" +:+ RESET.
Definition BOT : string := BOLD +:+ BLUE +:+ "Bot" +:+ RESET.

(** The conversation the driver starts with. *)
Definition initial_user_messages : list string :=
  ["I am Csabi, a DPhil student at Oxford University. I am interviewing you for a Quant Researcher role and you will have to provide the solutions by thinking step by step. I repeat, always plan your solution step by step and illustrate your thinking process with example if applicable."].

Definition initial_bot_messages : list string :=
  ["Hello, I am a chatbot using a finetuned GPT-4 Instruct baseline. I will be interviewing you for a Quant Researcher role. I will assist you"].

(** What the person at the terminal does, in the order they do it: type a
    line, or press Ctrl-C.  Ctrl-C interrupts the call that is blocking at
    that moment, [input] or [llm.generate]; typed lines wait for [input]. *)
Inductive stdin_event : Type :=
| Line (text : string)
| CtrlC.

Record chat_state : Type := mk_chat {
  user_messages : list string;
  bot_messages : list string;
  stdin : list stdin_event;
  stdout : list string;
}.

(** The loop of [multiline_input]; [lines] is the list collected so far.
    [input(prompt)] shows the prompt, then returns the next line, raises
    [KeyboardInterrupt] on Ctrl-C and [EOFError] when the input is closed. *)
Fixpoint multiline_input_from (lines : list string) (prompt : string)
    (stdin : list stdin_event) (stdout : list string)
    : result string * list stdin_event * list string :=
  let prompt := if decide (0 < length lines) then "" else prompt in
  match stdin with
  | [] => (Raise EOFError, [], stdout ++ [prompt])
  | CtrlC :: stdin' => (Raise KeyboardInterrupt, stdin', stdout ++ [prompt])
  | Line line :: stdin' =>
      if decide (line = "")
      then (Ok (String.concat LF lines), stdin', stdout ++ [prompt])
      else multiline_input_from (lines ++ [line]) prompt stdin'
                                (stdout ++ [prompt])
  end.

Definition multiline_input (prompt : string) (stdin : list stdin_event)
    (stdout : list string) : result string * list stdin_event * list string :=
  multiline_input_from [] prompt stdin stdout.

(** How one pass through the body of [while True] ends. *)
Inductive control : Type :=
| Continue
| Break
| Uncaught (e : exn).

Definition interrupt_notice : string :=
  "Keyboard interrupt caught. Type CLEAR to clear the conversation or EXIT to exit the program.".

(** [except KeyboardInterrupt: print(...); continue]; any other exception
    leaves the loop. *)
Definition except (e : exn) (st : chat_state) : control * chat_state :=
  match e with
  | KeyboardInterrupt =>
      (Continue, mk_chat (user_messages st) (bot_messages st) (stdin st)
                         (stdout st ++ [interrupt_notice]))
  | _ => (Uncaught e, st)
  end.

Section Loop.

(** [llm.generate(prompt, params)[0].outputs[0].text] *)
Variable chat_generate : string -> SamplingParams -> string.

(** One pass through the body of the [while True] loop. *)
Definition turn (st : chat_state) : control * chat_state :=
  let U := user_messages st in
  let B := bot_messages st in
  let '(r, stdin, stdout) :=
    multiline_input (LF +:+ LF +:+ USER +:+ " [" +:+ str_of_nat (length U)
                     +:+ "]: ")
                    (stdin st) (stdout st) in
  match r with
  | Raise e => except e (mk_chat U B stdin stdout)
  | Ok user_message =>
      if str_contains "CLEAR" user_message then
        (Continue, mk_chat [] [] stdin (stdout ++ ["Conversation cleared"]))
      else if str_contains "EXIT" user_message then
        (Break, mk_chat U B stdin (stdout ++ ["Exiting..."]))
      else
        let U := U ++ [user_message] in
        match Prompt.build_conversation_prompt U B with
        | Raise e => except e (mk_chat U B stdin stdout)
        | Ok prompt =>
            let params := mk_params 1 5 512 in
            match stdin with
            | CtrlC :: stdin' =>
                except KeyboardInterrupt (mk_chat U B stdin' stdout)
            | _ =>
                let bot_message := chat_generate prompt params in
                let stdout :=
                  stdout ++ [LF +:+ LF +:+ BOT +:+ " ["
                             +:+ str_of_nat (length B) +:+ "]: "
                             +:+ bot_message] in
                (Continue, mk_chat U (B ++ [bot_message]) stdin stdout)
            end
        end
  end.

(** The first [turns] passes of the loop. *)
Fixpoint repl (turns : nat) (st : chat_state) : control * chat_state :=
  match turns with
  | 0 => (Continue, st)
  | S turns' =>
      match turn st with
      | (Continue, st') => repl turns' st'
      | stopped => stopped
      end
  end.

End Loop.

End Chat.

(** ** The formats in closed form *)

Definition str_concat (parts : list string) : string := String.concat "" parts.

Definition answer_delimiter (i : nat) : string :=
  str_repeat "-" 45 +:+ "[ANSWER " +:+ str_of_nat i +:+ "]"
  +:+ str_repeat "-" 45.

Definition final_delimiter : string :=
  str_repeat "-" 43 +:+ "[FINAL ANSWER]" +:+ str_repeat "-" 43.

Definition answer_block (i : nat) (answer : string) : string :=
  answer_delimiter i +:+ LF +:+ answer +:+ LF +:+ LF +:+ LF.

Definition final_block (final_answer : string) : string :=
  final_delimiter +:+ LF +:+ final_answer +:+ LF +:+ LF +:+ LF.

(** The transcript of a session: the question text and three line feeds,
    one block per answer candidate, one block per final-answer candidate. *)
Definition transcript (q : string) (the_answers : list string)
    (finals : option (list string)) : string :=
  (q +:+ LF +:+ LF +:+ LF)
  +:+ str_concat (imap answer_block the_answers)
  +:+ str_concat (final_block <$> default [] finals).

(** [after] is [before] with its transcript written by the formatter. *)
Definition rendered (before after : string * session) : Prop :=
  after.1 = before.1
  /\ exists q the_answers,
       question_formatted before.2 = Some q
       /\ answers before.2 = Some the_answers
       /\ after.2 = set_formatted_output
                      (transcript q the_answers (final_answers before.2))
                      before.2.

(** The transcript as the specification words it: the question text and two
    newlines; per candidate the delimiter line, the text and two newlines. *)
Definition spec_transcript (q : string) (the_answers : list string)
    (finals : option (list string)) : string :=
  (q +:+ LF +:+ LF)
  +:+ str_concat (imap (fun i a => answer_delimiter i +:+ LF +:+ a +:+ LF +:+ LF)
                       the_answers)
  +:+ str_concat ((fun a => final_delimiter +:+ LF +:+ a +:+ LF +:+ LF)
                    <$> default [] finals).

Definition instructional_suffix : string :=
  LF +:+ LF +:+ " Please provide the answer and explain your reasoning!"
  +:+ " If there are options to choose from, do not provide an answer different from the options."
  +:+ LF.

(** The formatted question as the specification words it. *)
Definition spec_question (q : question) : string :=
  ("QUESTION: " +:+ question_text q +:+ LF)
  +:+ str_concat (imap (fun i o => "OPTION " +:+ str_of_nat i +:+ ": " +:+ o +:+ LF)
                       (default [] (options q)))
  +:+ instructional_suffix.

(** A session as [generate_sessions] creates it. *)
Definition fresh_session (q : question) : session :=
  mk_session (Some q) (Some (spec_question q)) None None None.

Definition question_header (ordinal : nat) (question_id : string) : string :=
  str_repeat "=" 100 +:+ LF
  +:+ "Question #" +:+ str_of_nat ordinal +:+ " (ID" +:+ question_id +:+ ")"
  +:+ LF +:+ str_repeat "=" 100 +:+ LF.

(** The text [save_file] writes for the pairs (question id, transcript). *)
Definition file_text (items : list (string * string)) : string :=
  str_concat
    (imap (fun ordinal item =>
             question_header ordinal item.1 +:+ item.2 +:+ LF +:+ LF +:+ LF)
          items).

(** The file as the specification words it: per session the header followed
    by the transcript, and nothing else. *)
Definition spec_file_text (items : list (string * string)) : string :=
  str_concat
    (imap (fun ordinal item => question_header ordinal item.1 +:+ item.2)
          items).

(** The prompt of a conversation with one user turn and no bot turn. *)
Definition single_turn_prompt (text : string) : string :=
  "<s> [INST] " +:+ text +:+ " [/INST]".

(** The user turn of round 2: the transcript, a newline, the separator line,
    two newlines and the instruction. *)
Definition final_prompt_text (transcript_text : string) : string :=
  transcript_text +:+ LF +:+ "~~~~~~~~~~" +:+ LF +:+ LF
  +:+ "Please provide the CORRECT final answer based on the question and the independent answers above. Explain why please!"
  +:+ LF.

(** A row of a batch run: the question id and question, the answers of
    round 1 and the final answers of round 2. *)
Abbreviation row :=
  ((string * question) * (list string * list string))%type.

(** The transcript of a row after round 1 and after round 2. *)
Definition row_transcript1 (r : row) : string :=
  transcript (spec_question r.1.2) r.2.1 None.

Definition row_transcript2 (r : row) : string :=
  transcript (spec_question r.1.2) r.2.1 (Some r.2.2).

(** ** Reading a transcript back: its delimiter lines *)

(** [s.split("\n")] *)
Fixpoint lines (s : string) : list string :=
  match s with
  | EmptyString => [""]
  | String c s' =>
      if decide (c = "010"%char) then "" :: lines s'
      else match lines s' with
           | l :: ls => String c l :: ls
           | [] => [String c ""]
           end
  end.

Fixpoint strip_prefix (p s : string) : option string :=
  match p, s with
  | EmptyString, _ => Some s
  | String a p', String b s' => if decide (a = b) then strip_prefix p' s' else None
  | String _ _, EmptyString => None
  end.

Fixpoint strip_suffix (suffix s : string) : option string :=
  if decide (s = suffix) then Some ""
  else match s with
       | EmptyString => None
       | String c s' => String c <$> strip_suffix suffix s'
       end.

(** [Some i] when the line is the delimiter of answer block [i]. *)
Definition answer_index (line : string) : option nat :=
  rest ← strip_prefix (str_repeat "-" 45 +:+ "[ANSWER ") line;
  label ← strip_suffix ("]" +:+ str_repeat "-" 45) rest;
  d ← NilZero.uint_of_string label;
  let i := Nat.of_uint d in
  if decide (str_of_nat i = label) then Some i else None.

(** The labels of the ANSWER delimiter lines of a text, in order. *)
Definition answer_labels (text : string) : list nat :=
  omap answer_index (lines text).

(** The number of FINAL ANSWER delimiter lines of a text. *)
Definition final_count (text : string) : nat :=
  length (filter (fun line => line = final_delimiter) (lines text)).

(** A line that is no delimiter. *)
Definition plain_line (line : string) : Prop :=
  answer_index line = None /\ line <> final_delimiter.

Definition plain_text (text : string) : Prop :=
  Forall plain_line (lines text).

(** * Properties *)

Section StringFacts.

Lemma append_cons (c : ascii) (a b : string) :
  String c a +:+ b = String c (a +:+ b).
Proof. reflexivity. Qed.

Lemma append_nil_r (s : string) : s +:+ "" = s.
Proof.
  induction s as [|c s IH]; [reflexivity|]. by rewrite append_cons, IH.
Qed.

Lemma append_assoc (a b c : string) : (a +:+ b) +:+ c = a +:+ (b +:+ c).
Proof.
  induction a as [|x a IH]; [reflexivity|]. by rewrite !append_cons, IH.
Qed.

Lemma concat_cons2 (sep x y : string) (l : list string) :
  String.concat sep (x :: y :: l) = x +:+ sep +:+ String.concat sep (y :: l).
Proof. reflexivity. Qed.

Lemma concat_app (sep : string) (xs ys : list string) :
  xs <> [] -> ys <> [] ->
  String.concat sep (xs ++ ys)
  = String.concat sep xs +:+ sep +:+ String.concat sep ys.
Proof.
  intros Hxs Hys. induction xs as [|x xs IH]; [done|].
  destruct xs as [|x' xs].
  - destruct ys as [|y ys]; [done|]. reflexivity.
  - change ((x :: x' :: xs) ++ ys) with (x :: x' :: (xs ++ ys)).
    rewrite !concat_cons2. change (x' :: xs ++ ys) with ((x' :: xs) ++ ys).
    rewrite IH by done. by rewrite !append_assoc.
Qed.

End StringFacts.

Module PromptFacts.
Import Prompt.

Lemma foldl_extend (acc : list string) (turns : list (string * string)) :
  foldl (fun parts '(user_msg, bot_msg) =>
           parts ++ [INST_START; user_msg; INST_END; bot_msg; EOS]) acc turns
  = acc ++ flat_map (fun '(u, b) => [INST_START; u; INST_END; b; EOS]) turns.
Proof.
  revert acc. induction turns as [|[u b] turns IH]; intros acc; cbn.
  - by rewrite app_nil_r.
  - rewrite IH. by rewrite <- app_assoc.
Qed.

Lemma flat_map_seq_shift {A : Type} (f : nat -> list A) (start n : nat) :
  flat_map f (seq (S start) n) = flat_map (fun i => f (S i)) (seq start n).
Proof.
  revert start. induction n as [|n IH]; intros start; [reflexivity|].
  cbn. by rewrite IH.
Qed.

Lemma zip_by_index (U B : list string) :
  length B <= length U ->
  flat_map (fun '(u, b) => [INST_START; u; INST_END; b; EOS]) (zip U B)
  = flat_map (fun i => ["[INST]"; nth i U ""; "[/INST]"; nth i B ""; "</s>"])
             (seq 0 (length B)).
Proof.
  revert U. induction B as [|b B IH]; intros U Hlen.
  - by destruct U.
  - destruct U as [|u U]; [cbn in Hlen; lia|].
    change (zip (u :: U) (b :: B)) with ((u, b) :: zip U B).
    change (seq 0 (length (b :: B))) with (0 :: seq 1 (length B)).
    cbn [flat_map]. rewrite IH by (cbn in Hlen; lia).
    by rewrite flat_map_seq_shift.
Qed.

Lemma last_by_index (U : list string) (n : nat) :
  length U = n + 1 -> last U = Some (nth n U "").
Proof.
  revert n. induction U as [|u U IH]; intros n Hlen; [cbn in Hlen; lia|].
  destruct U as [|u' U].
  - cbn in Hlen. by assert (n = 0) as -> by lia.
  - destruct n as [|n]; [cbn in Hlen; lia|].
    change (last (u :: u' :: U)) with (last (u' :: U)).
    rewrite (IH n) by (cbn in *; lia). reflexivity.
Qed.

Lemma build_ok (U B : list string) :
  length U = length B + 1 ->
  build_conversation_prompt U B = Ok (spec_prompt U B).
Proof.
  intros Hlen. unfold build_conversation_prompt.
  destruct (decide _) as [Hne|_]; [done|].
  rewrite (last_by_index U (length B) Hlen), foldl_extend.
  rewrite zip_by_index by lia.
  unfold spec_prompt, spec_tokens. by rewrite <- app_assoc.
Qed.

(** C1: with one more user message than bot messages the prompt is the
    single-space join of "<s>", then "[INST]" U[i] "[/INST]" B[i] "</s>" for
    every i below len(B), then "[INST]" U[len(B)] "[/INST]"; it starts with
    "<s>" and ends with the final user message followed by " [/INST]"; and
    U=["Hi"], B=[] gives "<s> [INST] Hi [/INST]". *)
Theorem build_conversation_prompt_grammar (U B : list string) :
  length U = length B + 1 ->
  build_conversation_prompt U B = Ok (spec_prompt U B)
  /\ (exists rest, spec_prompt U B = "<s>" +:+ rest)
  /\ (exists front,
        spec_prompt U B = front +:+ nth (length B) U "" +:+ " [/INST]")
  /\ build_conversation_prompt ["Hi"] [] = Ok "<s> [INST] Hi [/INST]".
Proof.
  intros Hlen. split; [by apply build_ok|]. split; [|split; [|reflexivity]].
  - unfold spec_prompt, spec_tokens.
    rewrite concat_app; [|done|by destruct (flat_map _ _)].
    by eexists.
  - unfold spec_prompt, spec_tokens. rewrite app_assoc.
    rewrite concat_app by (done || by destruct (flat_map _ _)).
    exists (String.concat " "
              (["<s>"] ++ flat_map
                 (fun i => ["[INST]"; nth i U ""; "[/INST]"; nth i B ""; "</s>"])
                 (seq 0 (length B))) +:+ " [INST] ").
    cbn [String.concat]. by rewrite !append_assoc.
Qed.

Lemma build_conversation_prompt_grammar_witness :
  Prompt.build_conversation_prompt ["a"; "c"] ["b"]
  = Ok "<s> [INST] a [/INST] b </s> [INST] c [/INST]".
Proof.
  destruct (build_conversation_prompt_grammar ["a"; "c"] ["b"]) as [H _];
    [reflexivity|].
  rewrite H. reflexivity.
Defined.

(** C2: with any other pair of lengths the builder raises the turn-count
    [ValueError] and returns no prompt; U=["Hi"], B=["Hello"] is such a
    pair. *)
Theorem build_conversation_prompt_rejects (U B : list string) :
  length U <> length B + 1 ->
  build_conversation_prompt U B = Raise turn_count_error
  /\ (forall prompt, build_conversation_prompt U B <> Ok prompt)
  /\ build_conversation_prompt ["Hi"] ["Hello"] = Raise turn_count_error.
Proof.
  intros Hlen.
  assert (build_conversation_prompt U B = Raise turn_count_error) as E.
  { unfold build_conversation_prompt. by destruct (decide _). }
  split; [done|]. split; [|reflexivity].
  intros prompt. by rewrite E.
Qed.

Lemma build_conversation_prompt_rejects_witness :
  Prompt.build_conversation_prompt ["Hi"] ["Hello"]
  = Raise Prompt.turn_count_error.
Proof.
  apply (build_conversation_prompt_rejects ["Hi"] ["Hello"]).
  cbn. lia.
Defined.

End PromptFacts.

(** ** The output formatter *)

Section FormatFacts.

Lemma str_concat_cons (x : string) (xs : list string) :
  str_concat (x :: xs) = x +:+ str_concat xs.
Proof.
  destruct xs as [|y xs]; [by rewrite append_nil_r|reflexivity].
Qed.

Lemma str_concat_app (xs ys : list string) :
  str_concat (xs ++ ys) = str_concat xs +:+ str_concat ys.
Proof.
  induction xs as [|x xs IH]; [reflexivity|].
  change ((x :: xs) ++ ys) with (x :: (xs ++ ys)).
  by rewrite !str_concat_cons, IH, append_assoc.
Qed.

(** A loop [for i, x in enumerate(l): acc += f(i, x)] appends the pieces in
    order. *)
Lemma foldl_append_shifted {A : Type} (f : nat -> A -> string) (g : nat -> nat)
    (acc : string) (l : list A) :
  foldl (fun acc '(i, x) => acc +:+ f i x) acc (imap (fun i x => (g i, x)) l)
  = acc +:+ str_concat (imap (fun i => f (g i)) l).
Proof.
  revert g acc. induction l as [|x l IH]; intros g acc.
  - by rewrite append_nil_r.
  - rewrite !imap_cons. cbn [foldl]. rewrite str_concat_cons.
    rewrite (IH (g ∘ S)). by rewrite append_assoc.
Qed.

Lemma foldl_append_enumerate {A : Type} (f : nat -> A -> string)
    (acc : string) (l : list A) :
  foldl (fun acc '(i, x) => acc +:+ f i x) acc (enumerate l)
  = acc +:+ str_concat (imap f l).
Proof. apply (foldl_append_shifted f id). Qed.

Lemma format_session_transcript (s : session) (q : string)
    (the_answers : list string) :
  question_formatted s = Some q ->
  answers s = Some the_answers ->
  format_session s
  = Ok (set_formatted_output (transcript q the_answers (final_answers s)) s).
Proof.
  intros Hq Ha. unfold format_session. rewrite Hq, Ha. cbn [getitem mbind result_bind].
  f_equal. f_equal. unfold transcript.
  rewrite (foldl_append_enumerate
             (fun i answer =>
                str_repeat "-" 45 +:+ "[ANSWER " +:+ str_of_nat i +:+ "]"
                +:+ str_repeat "-" 45 +:+ LF +:+ answer +:+ LF +:+ LF +:+ LF)).
  assert (imap (fun i answer =>
                  str_repeat "-" 45 +:+ "[ANSWER " +:+ str_of_nat i +:+ "]"
                  +:+ str_repeat "-" 45 +:+ LF +:+ answer +:+ LF +:+ LF +:+ LF)
               the_answers
          = imap answer_block the_answers) as ->.
  { apply imap_ext. intros i a _. unfold answer_block, answer_delimiter.
    by rewrite !append_assoc. }
  destruct (final_answers s) as [finals|]; cbn [default].
  - rewrite (foldl_append_enumerate
               (fun (_ : nat) final_answer =>
                  str_repeat "-" 43 +:+ "[FINAL ANSWER]" +:+ str_repeat "-" 43
                  +:+ LF +:+ final_answer +:+ LF +:+ LF +:+ LF)).
    rewrite (imap_const
               (fun final_answer =>
                  str_repeat "-" 43 +:+ "[FINAL ANSWER]" +:+ str_repeat "-" 43
                  +:+ LF +:+ final_answer +:+ LF +:+ LF +:+ LF)).
    assert ((fun final_answer =>
               str_repeat "-" 43 +:+ "[FINAL ANSWER]" +:+ str_repeat "-" 43
               +:+ LF +:+ final_answer +:+ LF +:+ LF +:+ LF) <$> finals
            = final_block <$> finals) as ->.
    { apply list_fmap_ext. intros i a _. unfold final_block, final_delimiter.
      by rewrite !append_assoc. }
    by rewrite !append_assoc.
  - by rewrite append_nil_r, !append_assoc.
Qed.

(** Every exception of the loop body is a missing key. *)
Lemma format_session_raises (s : session) (e : exn) :
  format_session s = Raise e ->
  e = KeyError "question_formatted"
  \/ (is_Some (question_formatted s) /\ answers s = None
      /\ e = KeyError "answers").
Proof.
  unfold format_session.
  destruct (question_formatted s) as [q|]; cbn; [|intros [= <-]; by left].
  destruct (answers s) as [a|]; cbn; [done|].
  intros [= <-]. right. eauto.
Qed.

Lemma format_session_needs_answers (s : session) :
  answers s = None ->
  format_session s = Raise (KeyError "question_formatted")
  \/ format_session s = Raise (KeyError "answers").
Proof.
  intros Ha. unfold format_session.
  destruct (question_formatted s) as [q|]; cbn; [|by left].
  rewrite Ha. by right.
Qed.

(** Formatting reads only the question and the candidates, which it does
    not write: a formatted session formats to itself. *)
Lemma format_session_fixed (s s' : session) :
  format_session s = Ok s' -> format_session s' = Ok s'.
Proof.
  destruct s as [raw [q|] [a|] finals out]; try done.
  rewrite (format_session_transcript _ q a) by done.
  intros [= <-]. by rewrite (format_session_transcript _ q a).
Qed.

(** When the call returns normally, every session was formatted. *)
Lemma format_session_outputs_lookup (sessions : store) (i : nat)
    (question_id : string) (s : session) :
  (format_session_outputs sessions).2 = None ->
  sessions !! i = Some (question_id, s) ->
  exists s', format_session s = Ok s'
             /\ (format_session_outputs sessions).1 !! i = Some (question_id, s').
Proof.
  revert i. induction sessions as [|[id0 s0] sessions IH]; intros i Hok Hi; [done|].
  cbn [format_session_outputs] in *.
  destruct (format_session s0) as [s0'|e] eqn:E0; [|done].
  destruct (format_session_outputs sessions) as [rest raised] eqn:Erest.
  cbn in Hok. destruct i as [|i].
  - injection Hi as -> ->. eauto.
  - cbn in Hi. destruct (IH i Hok Hi) as (s' & Hs' & Hl). eauto.
Qed.

(** C3 (as amended): when every session holds a formatted question and an
    answer list, [format_session_outputs] returns normally and writes into
    each session the question text followed by three line feeds, then per
    answer candidate, in order, the delimiter line of 45 dashes,
    "[ANSWER i]" and 45 dashes, the candidate text and three line feeds,
    then, only when final-answer candidates exist, the same per final
    candidate with the delimiter of 43 dashes, "[FINAL ANSWER]" and 43
    dashes. *)
Theorem format_session_outputs_transcript (sessions : store) :
  Forall (fun p => is_Some (question_formatted p.2) /\ is_Some (answers p.2))
         sessions ->
  (format_session_outputs sessions).2 = None
  /\ Forall2 rendered sessions (format_session_outputs sessions).1.
Proof.
  induction sessions as [|[id s] sessions IH]; intros Hall.
  - split; [done|constructor].
  - apply Forall_cons in Hall as [[[q Hq] [a Ha]] Hall]. cbn in Hq, Ha.
    destruct (IH Hall) as [Hnone Hrest].
    cbn [format_session_outputs].
    rewrite (format_session_transcript s q a Hq Ha).
    destruct (format_session_outputs sessions) as [rest raised].
    cbn in *. split; [done|]. constructor; [|done].
    split; [done|]. cbn. eauto.
Qed.

Lemma format_session_outputs_transcript_witness :
  (format_session_outputs
     [("q1", mk_session None (Some "Q") (Some ["A"]) (Some ["F"]) None)]).2
  = None.
Proof.
  apply format_session_outputs_transcript.
  repeat constructor; cbn; eauto.
Defined.

(** C3 (as stated) fails: the code separates with three line feeds where the
    claim has two newlines, after the question text (first store, a session
    with no candidate) and after a candidate text (second store). *)
Lemma format_session_outputs_two_newlines_refuted :
  let s0 := mk_session None (Some "Q") (Some []) None None in
  let s1 := mk_session None (Some "Q") (Some ["A"]) None None in
  format_session_outputs [("q0", s0)]
  <> ([("q0", set_formatted_output (spec_transcript "Q" [] None) s0)], None)
  /\ format_session_outputs [("q1", s1)]
     <> ([("q1", set_formatted_output (spec_transcript "Q" ["A"] None) s1)],
         None).
Proof.
  split; intros H;
    apply (f_equal (fun r =>
             String.length <$> (r.1 !! 0 ≫= formatted_output ∘ snd))) in H;
    vm_compute in H; discriminate H.
Qed.

(** C4: running the formatter again on the store it left behind changes
    nothing: the same store and the same outcome, byte for byte. *)
Theorem format_session_outputs_idempotent (sessions : store) :
  format_session_outputs (format_session_outputs sessions).1
  = format_session_outputs sessions.
Proof.
  induction sessions as [|[id s] sessions IH]; [reflexivity|].
  cbn [format_session_outputs].
  destruct (format_session s) as [s'|e] eqn:E.
  - destruct (format_session_outputs sessions) as [rest raised] eqn:Erest.
    cbn [fst] in *. cbn [format_session_outputs].
    rewrite (format_session_fixed s s' E). by rewrite IH.
  - cbn [fst format_session_outputs]. by rewrite E.
Qed.

(** C10: on a store with a session that has no "answers" entry the formatter
    raises a [KeyError], and every such session is left exactly as it was:
    no "formatted_output" is written into it. *)
Theorem format_session_outputs_requires_answers (sessions : store) :
  Exists (fun p => answers p.2 = None) sessions ->
  ((format_session_outputs sessions).2 = Some (KeyError "answers")
   \/ (format_session_outputs sessions).2 = Some (KeyError "question_formatted"))
  /\ forall i p, sessions !! i = Some p -> answers p.2 = None ->
       (format_session_outputs sessions).1 !! i = Some p.
Proof.
  induction sessions as [|[id s] sessions IH]; intros Hex.
  { by apply Exists_nil in Hex. }
  cbn [format_session_outputs].
  destruct (format_session s) as [s'|e] eqn:E.
  - assert (is_Some (answers s)) as [a Ha].
    { destruct (answers s) eqn:Ha; [eauto|].
      destruct (format_session_needs_answers s Ha); congruence. }
    apply Exists_cons in Hex as [Hex|Hex]; [cbn in Hex; congruence|].
    destruct (IH Hex) as [Hraise Hkeep].
    destruct (format_session_outputs sessions) as [rest raised].
    cbn in *. split; [done|].
    intros [|i] p Hp Hnone; cbn in *; [|by eauto].
    injection Hp as <-. cbn in Hnone. congruence.
  - cbn. split; [|done].
    destruct (format_session_raises s e E) as [->|(_ & _ & ->)]; eauto.
Qed.

Lemma format_session_outputs_requires_answers_witness :
  let fresh := mk_session None (Some "Q") None None None in
  (format_session_outputs [("q1", fresh)]).1 !! 0 = Some ("q1", fresh).
Proof.
  intros fresh.
  apply (format_session_outputs_requires_answers [("q1", fresh)]).
  - by left.
  - reflexivity.
  - reflexivity.
Defined.

End FormatFacts.

(** ** Delimiter lines of a transcript *)

Section ScanFacts.

Lemma length_append (a b : string) :
  String.length (a +:+ b) = String.length a + String.length b.
Proof.
  induction a as [|c a IH]; [reflexivity|].
  rewrite append_cons. cbn. by rewrite IH.
Qed.

Lemma lines_nonempty (s : string) : lines s <> [].
Proof.
  induction s as [|c s IH]; [done|]. cbn [lines].
  destruct (decide _); [done|]. by destruct (lines s).
Qed.

Lemma lines_LF (s : string) : lines (LF +:+ s) = "" :: lines s.
Proof.
  change (LF +:+ s) with (String "010"%char s). cbn [lines].
  by destruct (decide _).
Qed.

(** Splitting commutes with joining two texts by a line feed. *)
Lemma lines_app_LF (a b : string) :
  lines (a +:+ LF +:+ b) = lines a ++ lines b.
Proof.
  induction a as [|c a IH].
  - change ("" +:+ LF +:+ b) with (LF +:+ b). by rewrite lines_LF.
  - rewrite append_cons. cbn [lines]. rewrite IH.
    destruct (decide _); [done|].
    pose proof (lines_nonempty a). by destruct (lines a).
Qed.

Lemma lines_single_app (a b : string) :
  lines a = [a] -> lines b = [b] -> lines (a +:+ b) = [a +:+ b].
Proof.
  intros Ha Hb. induction a as [|c a IH]; [done|].
  rewrite append_cons. cbn [lines] in *.
  destruct (decide _); [done|].
  destruct (lines a) as [|l ls] eqn:E.
  - by destruct (lines_nonempty a).
  - injection Ha as -> ->. by rewrite IH.
Qed.

Lemma lines_digits (d : uint) :
  lines (NilEmpty.string_of_uint d) = [NilEmpty.string_of_uint d].
Proof.
  induction d as [|d IH|d IH|d IH|d IH|d IH|d IH|d IH|d IH|d IH|d IH];
    [done|..];
    cbn [NilEmpty.string_of_uint lines]; (destruct (decide _); [done|]);
    by rewrite IH.
Qed.

Lemma lines_str_of_nat (i : nat) : lines (str_of_nat i) = [str_of_nat i].
Proof.
  unfold str_of_nat, NilZero.string_of_uint.
  destruct (Nat.to_uint i); [done|..]; apply lines_digits.
Qed.

Lemma lines_answer_delimiter (i : nat) :
  lines (answer_delimiter i) = [answer_delimiter i].
Proof.
  unfold answer_delimiter.
  repeat (apply lines_single_app; [by vm_compute|]);
    apply lines_single_app; [apply lines_str_of_nat|].
  apply lines_single_app; by vm_compute.
Qed.

Lemma strip_prefix_app (p x : string) : strip_prefix p (p +:+ x) = Some x.
Proof.
  induction p as [|c p IH]; [by destruct x|].
  rewrite append_cons. cbn [strip_prefix]. by destruct (decide _).
Qed.

Lemma strip_suffix_unfold (suffix s : string) :
  strip_suffix suffix s
  = if decide (s = suffix) then Some ""
    else match s with
         | EmptyString => None
         | String c s' => String c <$> strip_suffix suffix s'
         end.
Proof. by destruct s. Qed.

Lemma strip_suffix_app (suffix x : string) :
  strip_suffix suffix (x +:+ suffix) = Some x.
Proof.
  induction x as [|c x IH]; rewrite strip_suffix_unfold.
  - by rewrite decide_True.
  - rewrite decide_False.
    + rewrite append_cons, IH. reflexivity.
    + intros H. apply (f_equal String.length) in H.
      rewrite length_append in H. cbn in H. lia.
Qed.

Lemma to_uint_nonnil (i : nat) : Nat.to_uint i <> Nil.
Proof.
  rewrite <- (DecimalNat.Unsigned.of_to i) at 1.
  rewrite DecimalNat.Unsigned.to_of. apply DecimalFacts.unorm_nonnil.
Qed.

(** The delimiter of block [i] reads back as [i]. *)
Lemma answer_index_delimiter (i : nat) :
  answer_index (answer_delimiter i) = Some i.
Proof.
  unfold answer_index, answer_delimiter.
  rewrite <- (append_assoc (str_repeat "-" 45) "[ANSWER ").
  rewrite strip_prefix_app. cbn [mbind option_bind].
  rewrite strip_suffix_app. cbn [mbind option_bind].
  assert (NilZero.uint_of_string (str_of_nat i) = Some (Nat.to_uint i)) as ->
    by apply NilZero.usu, to_uint_nonnil.
  cbn [mbind option_bind].
  rewrite DecimalNat.Unsigned.of_to. by rewrite decide_True.
Qed.

Lemma answer_delimiter_not_final (i : nat) :
  answer_delimiter i <> final_delimiter.
Proof.
  intros H. pose proof (answer_index_delimiter i) as Hi.
  rewrite H in Hi. by vm_compute in Hi.
Qed.

Lemma lines_answer_block (i : nat) (answer rest : string) :
  lines (answer_block i answer +:+ rest)
  = answer_delimiter i :: lines answer ++ "" :: "" :: lines rest.
Proof.
  unfold answer_block. rewrite !append_assoc.
  rewrite lines_app_LF, lines_answer_delimiter, lines_app_LF, !lines_LF.
  reflexivity.
Qed.

Lemma lines_final_block (final_answer rest : string) :
  lines (final_block final_answer +:+ rest)
  = final_delimiter :: lines final_answer ++ "" :: "" :: lines rest.
Proof.
  unfold final_block. rewrite !append_assoc.
  rewrite lines_app_LF, lines_app_LF, !lines_LF.
  reflexivity.
Qed.

Lemma omap_cons {A B : Type} (f : A -> option B) (x : A) (l : list A) :
  omap f (x :: l)
  = match f x with Some y => y :: omap f l | None => omap f l end.
Proof. reflexivity. Qed.

Lemma omap_plain (ls : list string) :
  Forall plain_line ls -> omap answer_index ls = [].
Proof.
  induction 1 as [|l ls [Hl _] _ IH]; [done|]. by rewrite omap_cons, Hl.
Qed.

Lemma filter_plain (ls : list string) :
  Forall plain_line ls -> filter (fun l => l = final_delimiter) ls = [].
Proof.
  induction 1 as [|l ls [_ Hl] _ IH]; [done|]. by rewrite filter_cons_False.
Qed.

Lemma labels_block (i : nat) (answer rest : string) :
  plain_text answer ->
  answer_labels (answer_block i answer +:+ rest) = i :: answer_labels rest.
Proof.
  intros Hplain. unfold answer_labels. rewrite lines_answer_block.
  rewrite omap_cons, answer_index_delimiter, omap_app, omap_plain by done.
  reflexivity.
Qed.

Lemma final_count_block (i : nat) (answer rest : string) :
  plain_text answer ->
  final_count (answer_block i answer +:+ rest) = final_count rest.
Proof.
  intros Hplain. unfold final_count. rewrite lines_answer_block.
  rewrite filter_cons_False by apply answer_delimiter_not_final.
  rewrite filter_app, filter_plain by done.
  reflexivity.
Qed.

Lemma scan_answer_blocks (first : nat) (the_answers : list string)
    (rest : string) :
  Forall plain_text the_answers ->
  answer_labels
    (str_concat (imap (fun i => answer_block (first + i)) the_answers) +:+ rest)
  = seq first (length the_answers) ++ answer_labels rest
  /\ final_count
       (str_concat (imap (fun i => answer_block (first + i)) the_answers)
        +:+ rest)
     = final_count rest.
Proof.
  intros Hplain. revert first.
  induction Hplain as [|a l Ha _ IH]; intros first; [done|].
  rewrite imap_cons, str_concat_cons, append_assoc.
  rewrite labels_block, final_count_block by done.
  rewrite (imap_ext _ (fun i => answer_block (S first + i))).
  - destruct (IH (S first)) as [-> ->]. by rewrite Nat.add_0_r.
  - intros i x _. cbn. f_equal. lia.
Qed.

Lemma scan_final_blocks (finals : list string) (rest : string) :
  Forall plain_text finals ->
  answer_labels (str_concat (final_block <$> finals) +:+ rest)
  = answer_labels rest
  /\ final_count (str_concat (final_block <$> finals) +:+ rest)
     = length finals + final_count rest.
Proof.
  induction 1 as [|a l Ha _ [IHl IHc]]; [done|].
  rewrite fmap_cons, str_concat_cons, append_assoc.
  unfold answer_labels, final_count in *. rewrite lines_final_block.
  rewrite omap_cons. change (answer_index final_delimiter) with (@None nat).
  rewrite filter_cons_True by done.
  rewrite omap_app, filter_app, omap_plain, filter_plain by done.
  cbn [app length]. rewrite !omap_cons.
  change (answer_index "") with (@None nat).
  rewrite !filter_cons_False by done.
  by rewrite IHl, IHc.
Qed.

(** The delimiter lines of a transcript whose texts are plain are exactly
    those of its blocks. *)
Lemma scan_transcript (q : string) (the_answers : list string)
    (finals : option (list string)) :
  plain_text q ->
  Forall plain_text the_answers ->
  Forall plain_text (default [] finals) ->
  answer_labels (transcript q the_answers finals)
  = seq 0 (length the_answers)
  /\ final_count (transcript q the_answers finals)
     = length (default [] finals).
Proof.
  intros Hq Ha Hf. unfold transcript. rewrite !append_assoc.
  destruct (scan_answer_blocks 0 the_answers
              (str_concat (final_block <$> default [] finals)) Ha) as [El Ec].
  change (imap (fun i => answer_block (0 + i)) the_answers)
    with (imap answer_block the_answers) in El, Ec.
  destruct (scan_final_blocks (default [] finals) "" Hf) as [Fl Fc].
  rewrite append_nil_r in Fl, Fc.
  change (answer_labels "") with (@nil nat) in Fl.
  change (final_count "") with 0 in Fc.
  unfold answer_labels, final_count in *.
  rewrite lines_app_LF, !lines_LF.
  rewrite omap_app, filter_app, omap_plain, filter_plain by done.
  cbn [app]. rewrite !omap_cons. change (answer_index "") with (@None nat).
  rewrite !filter_cons_False by done.
  rewrite El, Ec, Fl, Fc. split; [by rewrite app_nil_r|lia].
Qed.

(** C5 (as amended): when the question text, the candidate texts and the
    final-answer texts have no line that is itself a delimiter, the
    transcript written for a session with k answer candidates has exactly k
    ANSWER delimiter lines, labelled 0 to k-1 in that order, whether or not
    the session has final answers; it has one FINAL ANSWER delimiter line
    per final-answer candidate, hence none as long as the session has no
    "final_answers" entry. *)
Theorem format_session_outputs_answer_blocks (sessions : store) (i : nat)
    (question_id q : string) (s : session) (the_answers : list string) :
  (format_session_outputs sessions).2 = None ->
  sessions !! i = Some (question_id, s) ->
  question_formatted s = Some q ->
  answers s = Some the_answers ->
  plain_text q ->
  Forall plain_text the_answers ->
  Forall plain_text (default [] (final_answers s)) ->
  exists text,
    (format_session_outputs sessions).1 !! i
    = Some (question_id, set_formatted_output text s)
    /\ answer_labels text = seq 0 (length the_answers)
    /\ final_count text = length (default [] (final_answers s))
    /\ (final_answers s = None -> final_count text = 0).
Proof.
  intros Hok Hi Hq Ha Hpq Hpa Hpf.
  destruct (format_session_outputs_lookup sessions i question_id s Hok Hi)
    as (s' & Hs' & Hl).
  rewrite (format_session_transcript s q the_answers Hq Ha) in Hs'.
  injection Hs' as <-.
  exists (transcript q the_answers (final_answers s)). split; [done|].
  destruct (scan_transcript q the_answers (final_answers s) Hpq Hpa Hpf)
    as [Hlabels Hcount].
  split; [done|]. split; [done|].
  intros Hnone. by rewrite Hcount, Hnone.
Qed.

Lemma format_session_outputs_answer_blocks_witness :
  let s := mk_session None (Some "Q") (Some ["A"; "B"]) (Some ["F"]) None in
  exists text,
    (format_session_outputs [("q1", s)]).1 !! 0
    = Some ("q1", set_formatted_output text s)
    /\ answer_labels text = [0; 1]
    /\ final_count text = 1
    /\ (final_answers s = None -> final_count text = 0).
Proof.
  intros s.
  apply (format_session_outputs_answer_blocks [("q1", s)] 0 "q1" "Q" s ["A"; "B"]);
    try reflexivity.
  - repeat constructor; by vm_compute.
  - repeat constructor; by vm_compute.
  - repeat constructor; by vm_compute.
Defined.

(** C5 (as stated) fails: a candidate text may itself be a delimiter line;
    with this single candidate the transcript has two ANSWER delimiter
    lines, labelled 0 and 7. *)
Lemma format_session_outputs_answer_blocks_refuted :
  let s := mk_session None (Some "Q") (Some [answer_delimiter 7]) None None in
  exists text,
    format_session_outputs [("q1", s)]
    = ([("q1", set_formatted_output text s)], None)
    /\ answer_labels text = [0; 7]
    /\ answer_labels text <> seq 0 1.
Proof.
  intros s. eexists. split; [reflexivity|]. split; [by vm_compute|].
  by vm_compute.
Qed.

End ScanFacts.

(** ** Session creation *)

Section SessionFacts.

Lemma format_question_spec (q : question) :
  format_question q = spec_question q.
Proof.
  unfold format_question, spec_question, instructional_suffix.
  destruct (options q) as [opts|]; cbn [default].
  - rewrite (foldl_append_enumerate
               (fun opt_id option =>
                  "OPTION " +:+ str_of_nat opt_id +:+ ": " +:+ option +:+ LF)).
    by rewrite !append_assoc.
  - by rewrite !append_assoc.
Qed.

Lemma dict_set_fresh {V : Type} (key : string) (v : V)
    (d : list (string * V)) :
  key ∉ d.*1 -> dict_set key v d = d ++ [(key, v)].
Proof.
  induction d as [|[k v0] d IH]; intros Hfresh; [done|].
  cbn in *. apply not_elem_of_cons in Hfresh as [Hne Hfresh].
  rewrite decide_False by done. by rewrite IH.
Qed.

Lemma generate_sessions_loop (rest : list (string * question))
    (sessions : store) (printed : list string) :
  NoDup (sessions.*1 ++ rest.*1) ->
  foldl generate_step (sessions, printed) rest
  = (sessions ++ ((fun p => (p.1, fresh_session p.2)) <$> rest),
     printed ++ ((fun p => spec_question p.2) <$> rest)).
Proof.
  revert sessions printed.
  induction rest as [|[id q] rest IH]; intros sessions printed Hnodup.
  - by rewrite !app_nil_r.
  - cbn [foldl generate_step]. rewrite format_question_spec.
    assert (id ∉ sessions.*1) as Hfresh.
    { apply NoDup_app in Hnodup as (_ & Hdisj & _).
      intros Hin. apply (Hdisj id Hin). cbn. left. }
    rewrite dict_set_fresh by done. rewrite IH.
    + cbn. by rewrite <- !app_assoc.
    + rewrite fmap_app, <- app_assoc. exact Hnodup.
Qed.

(** C7: for a mapping of question ids to questions, [generate_sessions]
    creates one session per question, in input order, whose formatted
    question is the "QUESTION:" line, one "OPTION N:" line per option with
    N counted from 0 (none without options), and the instructional suffix;
    the question "2+2?" with options "3" and "4" gives the lines
    "QUESTION: 2+2?", "OPTION 0: 3", "OPTION 1: 4" and then the suffix. *)
Theorem generate_sessions_formats_questions
    (raw_questions : list (string * question)) :
  NoDup raw_questions.*1 ->
  (generate_sessions raw_questions).1
  = (fun p => (p.1, mk_session (Some p.2) (Some (spec_question p.2))
                               None None None)) <$> raw_questions
  /\ (forall text : string,
        spec_question (mk_question text None)
        = "QUESTION: " +:+ text +:+ LF +:+ instructional_suffix)
  /\ spec_question (mk_question "2+2?" (Some ["3"; "4"]))
     = "QUESTION: 2+2?" +:+ LF +:+ "OPTION 0: 3" +:+ LF
       +:+ "OPTION 1: 4" +:+ LF +:+ instructional_suffix.
Proof.
  intros Hnodup. split; [|split; [|reflexivity]].
  - unfold generate_sessions.
    by rewrite (generate_sessions_loop raw_questions [] []).
  - intros text. unfold spec_question. cbn [question_text options default imap].
    by rewrite !append_assoc.
Qed.

Lemma generate_sessions_formats_questions_witness :
  (generate_sessions [("q1", mk_question "2+2?" (Some ["3"; "4"]));
                      ("q2", mk_question "Why?" None)]).1
  = [("q1", fresh_session (mk_question "2+2?" (Some ["3"; "4"])));
     ("q2", fresh_session (mk_question "Why?" None))].
Proof.
  apply (generate_sessions_formats_questions
           [("q1", mk_question "2+2?" (Some ["3"; "4"]));
            ("q2", mk_question "Why?" None)]).
  apply (bool_decide_unpack _). by vm_compute.
Defined.

(** X6: a store fresh from [generate_sessions] cannot be formatted.  For a
    non-empty mapping with distinct ids, [format_session_outputs] on the new
    store raises [KeyError] for "answers" at the first session and leaves
    the store as it was: round 1 has to run before the formatter. *)
Lemma format_fresh_store (raw_questions : list (string * question)) :
  raw_questions <> [] ->
  NoDup raw_questions.*1 ->
  format_session_outputs (generate_sessions raw_questions).1
  = ((generate_sessions raw_questions).1, Some (KeyError "answers")).
Proof.
  intros Hne Hnodup. unfold generate_sessions.
  rewrite (generate_sessions_loop raw_questions [] []) by done.
  destruct raw_questions as [|[id q] rest]; [done|]. reflexivity.
Qed.

End SessionFacts.

(** ** Persistence *)

Section SaveFacts.

Lemma save_loop_spec (sessions : store) (items : list (string * string))
    (ordinal : nat -> nat) (written : string) :
  Forall2 (fun p item => item.1 = p.1 /\ formatted_output p.2 = Some item.2)
          sessions items ->
  save_loop (imap (fun i p => (ordinal i, p)) sessions) written
  = (written
     +:+ str_concat
           (imap (fun i item =>
                    question_header (ordinal i) item.1 +:+ item.2
                    +:+ LF +:+ LF +:+ LF)
                 items),
     None).
Proof.
  intros Hall. revert ordinal written.
  induction Hall as [|[id s] [id' t] sessions items [Hid Ht] _ IH];
    intros ordinal written.
  { by rewrite append_nil_r. }
  cbn in Hid, Ht. subst id'.
  rewrite !imap_cons. cbn [save_loop]. rewrite Ht. cbn [getitem].
  rewrite (IH (ordinal ∘ S)), str_concat_cons. f_equal.
  unfold question_header. cbn [fst snd]. by rewrite !append_assoc.
Qed.

(** C8 (as amended): when every session has a transcript, [save_file]
    leaves under the file name exactly the concatenation, in store order,
    of the header "Question #{ordinal} (ID{question_id})" between two lines
    of 100 "=", the session's transcript and three line feeds, with
    ordinals from 0; what the file held before is gone and no other file
    changes; a store of two sessions gives two blocks, numbered 0 and 1. *)
Theorem save_file_writes_blocks (files : gmap string string) (sessions : store)
    (items : list (string * string)) (filename : option string) :
  Forall2 (fun p item => item.1 = p.1 /\ formatted_output p.2 = Some item.2)
          sessions items ->
  save_file files sessions filename
  = (<[default "answers.txt" filename := file_text items]> files, None)
  /\ (save_file files sessions filename).1 !! default "answers.txt" filename
     = Some (file_text items)
  /\ (forall other, other <> default "answers.txt" filename ->
        (save_file files sessions filename).1 !! other = files !! other)
  /\ (forall id0 t0 id1 t1,
        file_text [(id0, t0); (id1, t1)]
        = question_header 0 id0 +:+ t0 +:+ LF +:+ LF +:+ LF
          +:+ question_header 1 id1 +:+ t1 +:+ LF +:+ LF +:+ LF).
Proof.
  intros Hall.
  assert (save_file files sessions filename
          = (<[default "answers.txt" filename := file_text items]> files, None))
    as E.
  { pose proof (save_loop_spec sessions items (fun i => i) "" Hall) as Hloop.
    unfold save_file, enumerate. cbn beta in Hloop. by rewrite Hloop. }
  rewrite E. cbn [fst]. split; [done|]. split; [apply lookup_insert_eq|].
  split; [intros other Hne; by apply lookup_insert_ne|].
  intros id0 t0 id1 t1. unfold file_text.
  cbn [imap]. rewrite !str_concat_cons. cbn [fst snd compose].
  change (str_concat []) with "". by rewrite !append_assoc, append_nil_r.
Qed.

Lemma save_file_writes_blocks_witness :
  let s t := mk_session None (Some "Q") (Some []) None (Some t) in
  (save_file {["answers.txt" := "old"]} [("a", s "T0"); ("b", s "T1")] None).1
    !! "answers.txt"
  = Some (file_text [("a", "T0"); ("b", "T1")]).
Proof.
  intros s.
  apply (save_file_writes_blocks {["answers.txt" := "old"]}
           [("a", s "T0"); ("b", s "T1")] [("a", "T0"); ("b", "T1")] None).
  repeat constructor.
Defined.

(** C8 (as stated) fails: the file is not the headers and transcripts
    alone; the code writes three line feeds after every transcript. *)
Lemma save_file_header_and_transcript_only_refuted :
  let s := mk_session None (Some "Q") (Some []) None (Some "T") in
  save_file ∅ [("a", s)] None
  <> (<["answers.txt" := spec_file_text [("a", "T")]]> ∅, None).
Proof.
  intros s H.
  apply (f_equal (fun r => String.length <$> (r.1 !! "answers.txt"))) in H.
  vm_compute in H. discriminate H.
Qed.

End SaveFacts.

(** ** Batch answerer *)

Section BatchFacts.

Variable llm_generate : list string -> SamplingParams -> list (list string).

Lemma build_single_turn (text : string) :
  Prompt.build_conversation_prompt [text] [] = Ok (single_turn_prompt text).
Proof. reflexivity. Qed.

Lemma mapM_Ok {A B : Type} (f : A -> result B) (l : list A) (k : list B) :
  Forall2 (fun x y => f x = Ok y) l k -> mapM f l = Ok k.
Proof.
  induction 1 as [|x y l k Hxy _ IH]; [reflexivity|].
  cbn [mapM]. rewrite Hxy. cbn [mbind result_bind]. by rewrite IH.
Qed.

Lemma round1_prompts (sessions : store) (qs : list string) :
  Forall2 (fun p q => question_formatted p.2 = Some q) sessions qs ->
  mapM (fun item => question_prompt item.2) sessions
  = Ok (single_turn_prompt <$> qs).
Proof.
  intros Hall. apply mapM_Ok, Forall2_fmap_r.
  eapply Forall2_impl; [exact Hall|].
  intros [id s] q Hq. unfold question_prompt. cbn in *. by rewrite Hq.
Qed.

Lemma round2_prompts (sessions : store) (ts : list string) :
  Forall2 (fun p t => formatted_output p.2 = Some t) sessions ts ->
  mapM (fun item => final_prompt item.2) sessions
  = Ok ((single_turn_prompt ∘ final_prompt_text) <$> ts).
Proof.
  intros Hall. apply mapM_Ok, Forall2_fmap_r.
  eapply Forall2_impl; [exact Hall|].
  intros [id s] t Ht. unfold final_prompt. cbn in *. by rewrite Ht.
Qed.

End BatchFacts.

(** ** Interactive driver *)

Section ChatFacts.
Import Chat.

Variable chat_generate : string -> SamplingParams -> string.

(** Ctrl-C after some typed lines makes [multiline_input] raise
    [KeyboardInterrupt]. *)
Lemma multiline_input_interrupted (typed : list string) (lines : list string)
    (prompt : string) (rest : list stdin_event) (out : list string) :
  Forall (fun line => line <> "") typed ->
  exists out',
    multiline_input_from lines prompt ((Line <$> typed) ++ CtrlC :: rest) out
    = (Raise KeyboardInterrupt, rest, out').
Proof.
  intros Htyped. revert lines prompt out.
  induction Htyped as [|line typed Hline _ IH]; intros lines prompt out.
  - cbn. eauto.
  - cbn. rewrite decide_False by done. apply IH.
Qed.

(** X18: Ctrl-C while the user is typing a message is caught: the loop
    continues, the lines typed so far in this turn are dropped, and both
    message lists are as they were. *)
Lemma turn_input_interrupted (st : chat_state) (typed : list string)
    (rest : list stdin_event) :
  Forall (fun line => line <> "") typed ->
  stdin st = (Line <$> typed) ++ CtrlC :: rest ->
  exists out,
    turn chat_generate st
    = (Continue, mk_chat (user_messages st) (bot_messages st) rest out).
Proof.
  intros Htyped Hin. unfold turn, multiline_input. rewrite Hin.
  destruct (multiline_input_interrupted typed []
              (LF +:+ LF +:+ USER +:+ " ["
               +:+ str_of_nat (length (user_messages st)) +:+ "]: ")
              rest (stdout st) Htyped) as [out' ->].
  cbn. eauto.
Qed.

(** An ordinary message: non-empty, one line, without a control word. *)
Lemma turn_reads_message (st : chat_state) (message : string)
    (rest : list stdin_event) :
  stdin st = Line message :: Line "" :: rest ->
  message <> "" ->
  multiline_input (LF +:+ LF +:+ USER +:+ " ["
                   +:+ str_of_nat (length (user_messages st)) +:+ "]: ")
                  (stdin st) (stdout st)
  = (Ok message, rest,
     stdout st
     ++ [LF +:+ LF +:+ USER +:+ " ["
         +:+ str_of_nat (length (user_messages st)) +:+ "]: "]
     ++ [""]).
Proof.
  intros -> Hne. unfold multiline_input. cbn [multiline_input_from].
  rewrite (decide_False (P := message = "")) by done.
  cbn [multiline_input_from]. rewrite (decide_True (P := "" = "")) by done.
  cbn. by rewrite <- app_assoc.
Qed.

(** Ctrl-C while the reply is generated: the loop continues, but the
    message just entered stays in the user messages without a reply. *)
Lemma turn_generation_interrupted (st : chat_state) (message : string)
    (rest : list stdin_event) :
  stdin st = Line message :: Line "" :: CtrlC :: rest ->
  message <> "" ->
  str_contains "CLEAR" message = false ->
  str_contains "EXIT" message = false ->
  length (user_messages st) = length (bot_messages st) ->
  exists out,
    turn chat_generate st
    = (Continue,
       mk_chat (user_messages st ++ [message]) (bot_messages st) rest out).
Proof.
  intros Hin Hne Hclear Hexit Hlen. unfold turn.
  rewrite (turn_reads_message st message (CtrlC :: rest) Hin Hne).
  rewrite Hclear, Hexit, PromptFacts.build_ok
    by (rewrite length_app; cbn; lia).
  cbn. eauto.
Qed.

(** With a user message left over, the next ordinary message makes the
    prompt builder raise, and the driver does not catch it. *)
Lemma turn_after_interruption (st : chat_state) (message : string)
    (rest : list stdin_event) :
  stdin st = Line message :: Line "" :: rest ->
  message <> "" ->
  str_contains "CLEAR" message = false ->
  str_contains "EXIT" message = false ->
  length (user_messages st) = length (bot_messages st) + 1 ->
  (turn chat_generate st).1 = Uncaught Prompt.turn_count_error.
Proof.
  intros Hin Hne Hclear Hexit Hlen. unfold turn.
  rewrite (turn_reads_message st message rest Hin Hne).
  rewrite Hclear, Hexit. unfold Prompt.build_conversation_prompt.
  rewrite decide_True by (rewrite length_app; cbn; lia).
  reflexivity.
Qed.

(** C9, at the failing input: starting from the driver's initial
    conversation the user enters "hello", presses Ctrl-C while the reply is
    generated, then enters "again".  The interruption is caught and the loop
    continues, but the conversation is not what it was at the start of the
    interrupted turn: "hello" stays in the user messages with no reply.  The
    next turn then raises the turn-count [ValueError], which nothing
    catches. *)
Theorem interrupted_generation_breaks_next_turn :
  let st0 := mk_chat initial_user_messages initial_bot_messages
                     [Line "hello"; Line ""; CtrlC; Line "again"; Line ""] [] in
  (exists out,
     turn chat_generate st0
     = (Continue,
        mk_chat (initial_user_messages ++ ["hello"]) initial_bot_messages
                [Line "again"; Line ""] out))
  /\ (turn chat_generate st0).2.(user_messages) <> user_messages st0
  /\ (repl chat_generate 2 st0).1 = Uncaught Prompt.turn_count_error.
Proof.
  intros st0. split; [|split].
  - eexists. by vm_compute.
  - by vm_compute.
  - by vm_compute.
Qed.

End ChatFacts.

(** ** The batch driver *)

Section DriverFacts.

Variable llm_generate : list string -> SamplingParams -> list (list string).

Lemma dict_get_app_fresh {V : Type} (key : string) (v : V)
    (pre suf : list (string * V)) :
  key ∉ pre.*1 -> dict_get key (pre ++ (key, v) :: suf) = Some v.
Proof.
  induction pre as [|[k v0] pre IH]; intros Hfresh; cbn.
  - by rewrite decide_True.
  - cbn in Hfresh. apply not_elem_of_cons in Hfresh as [Hne Hfresh].
    rewrite decide_False by done. by apply IH.
Qed.

Lemma dict_set_app_fresh {V : Type} (key : string) (v v' : V)
    (pre suf : list (string * V)) :
  key ∉ pre.*1 ->
  dict_set key v' (pre ++ (key, v) :: suf) = pre ++ (key, v') :: suf.
Proof.
  induction pre as [|[k v0] pre IH]; intros Hfresh; cbn.
  - by rewrite decide_True.
  - cbn in Hfresh. apply not_elem_of_cons in Hfresh as [Hne Hfresh].
    rewrite decide_False by done. by rewrite IH.
Qed.

(** With distinct keys and an engine result per prompt, the attaching loop
    stores the results position by position. *)
Lemma attach_spec (setter : list string -> session -> session)
    (raw : list (list string)) (suf pre : store) (index : nat -> nat) :
  NoDup (pre ++ suf).*1 ->
  (forall i, index i = length pre + i) ->
  length pre + length suf <= length raw ->
  attach setter raw (imap (fun i k => (index i, k)) suf.*1) (pre ++ suf)
  = (pre ++ zip_with (fun p out => (p.1, setter out p.2)) suf
                     (drop (length pre) raw),
     None).
Proof.
  revert pre index. induction suf as [|[k s] suf IH];
    intros pre index Hnodup Hindex Hlen.
  { cbn. by rewrite !app_nil_r. }
  rewrite fmap_cons, imap_cons. cbn [attach fst].
  destruct (lookup_lt_is_Some_2 raw (index 0)) as [out Hout].
  { rewrite Hindex. cbn in Hlen. lia. }
  rewrite Hout.
  assert (k ∉ pre.*1) as Hfresh.
  { rewrite fmap_app in Hnodup.
    apply NoDup_app in Hnodup as (_ & Hdisj & _).
    intros Hin. apply (Hdisj k Hin). cbn. left. }
  rewrite dict_get_app_fresh, dict_set_app_fresh by done.
  rewrite (cons_middle _ pre suf), app_assoc.
  unfold compose.
  rewrite (IH (pre ++ [(k, setter out s)]) (fun i => index (S i))).
  - rewrite Hindex, Nat.add_0_r in Hout.
    rewrite (drop_S raw out (length pre) Hout).
    rewrite length_app. cbn [length zip_with fst snd].
    rewrite Nat.add_1_r. by rewrite <- app_assoc.
  - rewrite <- app_assoc. cbn. by rewrite !fmap_app in *.
  - intros i. cbn. rewrite Hindex, length_app. cbn. lia.
  - rewrite length_app. cbn in *. lia.
Qed.

Section Rows.

Context {R : Type}.
Variable rows : list R.

Lemma attach_rows (setter : list string -> session -> session)
    (f : R -> string * session) (out : R -> list string) :
  NoDup (f <$> rows).*1 ->
  attach setter (out <$> rows) (enumerate (f <$> rows).*1) (f <$> rows)
  = ((fun r => ((f r).1, setter (out r) (f r).2)) <$> rows, None).
Proof.
  intros Hnodup.
  pose proof (attach_spec setter (out <$> rows) (f <$> rows) []
                (fun i => i) Hnodup) as H.
  cbn [app length drop] in H. unfold enumerate. rewrite H.
  - by rewrite drop_0, zip_with_fmap_l, zip_with_fmap_r, zip_with_diag.
  - done.
  - rewrite !length_fmap. lia.
Qed.

Lemma mapM_rows {A B : Type} (g : A -> result B) (f : R -> A) (p : R -> B) :
  (forall r, g (f r) = Ok (p r)) -> mapM g (f <$> rows) = Ok (p <$> rows).
Proof.
  intros H. apply mapM_Ok, Forall2_fmap, Forall_Forall2_diag, Forall_forall.
  intros r _. apply H.
Qed.

Lemma format_rows (f g : R -> string * session) :
  (forall r, format_session (f r).2 = Ok (g r).2 /\ (g r).1 = (f r).1) ->
  format_session_outputs (f <$> rows) = (g <$> rows, None).
Proof.
  intros H. induction rows as [|r rest IH]; [reflexivity|].
  rewrite !fmap_cons. destruct (H r) as [Hfmt Hid].
  destruct (f r) as [id s]. cbn [format_session_outputs]. cbn in Hfmt, Hid.
  rewrite Hfmt, IH. destruct (g r) as [id' s']. cbn in *. by subst.
Qed.

Lemma save_rows (files : gmap string string) (f : R -> string * session)
    (item : R -> string * string) (filename : string) :
  (forall r, (item r).1 = (f r).1 /\ formatted_output (f r).2 = Some (item r).2) ->
  save_file files (f <$> rows) (Some filename)
  = (<[filename := file_text (item <$> rows)]> files, None).
Proof.
  intros H.
  pose proof (save_loop_spec (f <$> rows) (item <$> rows) (fun i => i) "") as Hloop.
  unfold save_file, enumerate. cbn beta in Hloop. rewrite Hloop; [done|].
  apply Forall2_fmap, Forall_Forall2_diag, Forall_forall. intros r _. apply H.
Qed.

End Rows.

(** The run in terms of its rows, with the store it leaves. *)
Lemma batch_iteration_rows_store (rows : list row) (w : world) :
  NoDup rows.*1.*1 ->
  llm_generate ((fun r => single_turn_prompt (spec_question r.1.2)) <$> rows)
               (mk_params 7 10 1024)
  = (fun r => r.2.1) <$> rows ->
  llm_generate ((fun r => single_turn_prompt (final_prompt_text (row_transcript1 r)))
                  <$> rows)
               (mk_params 1 3 1024)
  = (fun r => r.2.2) <$> rows ->
  exists stdout',
    batch_iteration llm_generate rows.*1 w
    = (mk_world
         ((fun r : row =>
             (r.1.1,
              mk_session (Some r.1.2) (Some (spec_question r.1.2))
                         (Some r.2.1) (Some r.2.2)
                         (Some (row_transcript2 r)))) <$> rows)
         (<["answers_final.txt" :=
              file_text ((fun r => (r.1.1, row_transcript2 r)) <$> rows)]>
          (<["answers.txt" :=
               file_text ((fun r => (r.1.1, row_transcript1 r)) <$> rows)]>
           (w_files w)))
         (w_requests w
          ++ [mk_request
                ((fun r => single_turn_prompt (spec_question r.1.2)) <$> rows)
                (mk_params 7 10 1024);
              mk_request
                ((fun r => single_turn_prompt
                             (final_prompt_text (row_transcript1 r))) <$> rows)
                (mk_params 1 3 1024)])
         stdout',
       None).
Proof.
  intros Hnodup Hgen1 Hgen2.
  set (created := fun r : row => (r.1.1, fresh_session r.1.2)).
  set (answered := fun r : row => (r.1.1, set_answers r.2.1 (fresh_session r.1.2))).
  set (formatted1 := fun r : row =>
         (r.1.1, set_formatted_output (row_transcript1 r) (answered r).2)).
  set (finalized := fun r : row =>
         (r.1.1, set_final_answers r.2.2 (formatted1 r).2)).
  set (formatted2 := fun r : row =>
         (r.1.1, set_formatted_output (row_transcript2 r) (finalized r).2)).
  assert (forall f : row -> string * session,
            (forall r, (f r).1 = r.1.1) -> NoDup (f <$> rows).*1) as Hkeys.
  { intros f Hf. rewrite <- list_fmap_compose.
    rewrite (list_fmap_ext (fst ∘ f) (fst ∘ fst) rows)
      by (intros ? r _; apply Hf).
    by rewrite list_fmap_compose. }
  eexists. unfold batch_iteration, and_then.
  (* generate_sessions *)
  unfold run_generate at 1.
  pose proof (generate_sessions_loop rows.*1 [] []) as Hcreate.
  unfold generate_sessions at 1. rewrite Hcreate by done. clear Hcreate.
  cbn [app]. rewrite <- !list_fmap_compose.
  change ((fun p : string * question => (p.1, fresh_session p.2)) ∘ fst)
    with created.
  (* round 1 *)
  unfold run_round at 1, answer_batch_questions. cbn [w_sessions default from_option id].
  rewrite (mapM_rows rows (fun item => question_prompt item.2) created
             (fun r => single_turn_prompt (spec_question r.1.2)))
    by done.
  rewrite Hgen1, (attach_rows rows set_answers created) by (by apply Hkeys).
  cbn [rd_sessions rd_requests rd_stdout rd_raised].
  change (fun r : row => ((created r).1, set_answers r.2.1 (created r).2))
    with answered.
  (* format, save *)
  unfold run_format at 1. cbn [w_sessions].
  rewrite (format_rows rows answered formatted1)
    by (intros r; split; [|done];
        exact (format_session_transcript (answered r).2 (spec_question r.1.2)
                 r.2.1 eq_refl eq_refl)).
  unfold run_save at 1. cbn [w_sessions w_files].
  rewrite (save_rows rows _ formatted1 (fun r => (r.1.1, row_transcript1 r)))
    by done.
  (* round 2 *)
  unfold run_round at 1, answer_batch_questions_final. cbn [w_sessions default from_option id].
  rewrite (mapM_rows rows (fun item => final_prompt item.2) formatted1
             (fun r => single_turn_prompt (final_prompt_text (row_transcript1 r))))
    by done.
  rewrite Hgen2, (attach_rows rows set_final_answers formatted1)
    by (by apply Hkeys).
  cbn [rd_sessions rd_requests rd_stdout rd_raised].
  change (fun r : row =>
            ((formatted1 r).1, set_final_answers r.2.2 (formatted1 r).2))
    with finalized.
  (* format, save *)
  unfold run_format at 1. cbn [w_sessions].
  rewrite (format_rows rows finalized formatted2)
    by (intros r; split; [|done];
        exact (format_session_transcript (finalized r).2 (spec_question r.1.2)
                 r.2.1 eq_refl eq_refl)).
  unfold run_save. cbn [w_sessions w_files].
  rewrite (save_rows rows _ formatted2 (fun r => (r.1.1, row_transcript2 r)))
    by done.
  cbn [fst snd w_requests w_files w_stdout w_sessions].
  rewrite <- (app_assoc (w_requests w)). reflexivity.
Qed.

Lemma batch_iteration_rows (rows : list row) (w : world) :
  NoDup rows.*1.*1 ->
  llm_generate ((fun r => single_turn_prompt (spec_question r.1.2)) <$> rows)
               (mk_params 7 10 1024)
  = (fun r => r.2.1) <$> rows ->
  llm_generate ((fun r => single_turn_prompt (final_prompt_text (row_transcript1 r)))
                  <$> rows)
               (mk_params 1 3 1024)
  = (fun r => r.2.2) <$> rows ->
  exists sessions' stdout',
    batch_iteration llm_generate rows.*1 w
    = (mk_world
         sessions'
         (<["answers_final.txt" :=
              file_text ((fun r => (r.1.1, row_transcript2 r)) <$> rows)]>
          (<["answers.txt" :=
               file_text ((fun r => (r.1.1, row_transcript1 r)) <$> rows)]>
           (w_files w)))
         (w_requests w
          ++ [mk_request
                ((fun r => single_turn_prompt (spec_question r.1.2)) <$> rows)
                (mk_params 7 10 1024);
              mk_request
                ((fun r => single_turn_prompt
                             (final_prompt_text (row_transcript1 r))) <$> rows)
                (mk_params 1 3 1024)])
         stdout',
       None).
Proof.
  intros Hnodup Hgen1 Hgen2.
  destruct (batch_iteration_rows_store rows w Hnodup Hgen1 Hgen2)
    as [stdout' Hrun].
  eauto.
Qed.

(** The lists of the run, read off the rows. *)
Lemma rows_view (rows : list row) :
  let qs := (spec_question ∘ snd) <$> rows.*1 in
  let a1 := (fun r : row => r.2.1) <$> rows in
  let a2 := (fun r : row => r.2.2) <$> rows in
  let t1 := zip_with (fun q a => transcript q a None) qs a1 in
  let t2 := zip_with (fun qa f => transcript qa.1 qa.2 (Some f)) (zip qs a1) a2 in
  (fun r : row => single_turn_prompt (spec_question r.1.2)) <$> rows
  = single_turn_prompt <$> qs
  /\ (fun r => single_turn_prompt (final_prompt_text (row_transcript1 r))) <$> rows
     = (single_turn_prompt ∘ final_prompt_text) <$> t1
  /\ (fun r => (r.1.1, row_transcript1 r)) <$> rows = zip rows.*1.*1 t1
  /\ (fun r => (r.1.1, row_transcript2 r)) <$> rows = zip rows.*1.*1 t2.
Proof.
  induction rows as [|r rows IH]; [done|].
  cbn zeta in *. destruct IH as (E1 & E2 & E3 & E4).
  rewrite !fmap_cons. cbn [zip_with]. rewrite !fmap_cons.
  rewrite E1, E2, E3, E4. done.
Qed.

(** X13: one pass of the driver over questions with distinct ids, with an
    engine that answers every prompt: nothing is raised; the engine receives
    the round-1 request and then the round-2 request built from the round-1
    transcripts; "answers.txt" holds the round-1 transcripts and
    "answers_final.txt" the transcripts with the final answers. *)
Lemma batch_iteration_runs (raw_questions : list (string * question))
    (w : world) :
  NoDup raw_questions.*1 ->
  (forall prompts params,
     length (llm_generate prompts params) = length prompts) ->
  let qs := (spec_question ∘ snd) <$> raw_questions in
  let req1 := mk_request (single_turn_prompt <$> qs) (mk_params 7 10 1024) in
  let a1 := llm_generate (req_prompts req1) (req_params req1) in
  let t1 := zip_with (fun q a => transcript q a None) qs a1 in
  let req2 := mk_request ((single_turn_prompt ∘ final_prompt_text) <$> t1)
                         (mk_params 1 3 1024) in
  let a2 := llm_generate (req_prompts req2) (req_params req2) in
  let t2 := zip_with (fun qa f => transcript qa.1 qa.2 (Some f)) (zip qs a1) a2 in
  exists sessions' stdout',
    batch_iteration llm_generate raw_questions w
    = (mk_world
         sessions'
         (<["answers_final.txt" := file_text (zip raw_questions.*1 t2)]>
          (<["answers.txt" := file_text (zip raw_questions.*1 t1)]> (w_files w)))
         (w_requests w ++ [req1; req2])
         stdout',
       None).
Proof.
  intros Hnodup Htotal qs req1 a1 t1 req2 a2 t2.
  assert (length a1 = length raw_questions) as Hlen1.
  { unfold a1, req1, qs. cbn. by rewrite Htotal, !length_fmap. }
  assert (length a2 = length raw_questions) as Hlen2.
  { unfold a2, req2, t1, qs. cbn.
    rewrite Htotal, length_fmap, length_zip_with, length_fmap. lia. }
  set (rows := zip raw_questions (zip a1 a2)).
  assert (rows.*1 = raw_questions) as Hraw.
  { apply fst_zip. rewrite length_zip. lia. }
  assert (rows.*2 = zip a1 a2) as Hrest.
  { apply snd_zip. rewrite length_zip. lia. }
  assert ((fun r : row => r.2.1) <$> rows = a1) as Ha1.
  { trans (rows.*2.*1); [by rewrite <- list_fmap_compose|].
    rewrite Hrest. apply fst_zip. lia. }
  assert ((fun r : row => r.2.2) <$> rows = a2) as Ha2.
  { trans (rows.*2.*2); [by rewrite <- list_fmap_compose|].
    rewrite Hrest. apply snd_zip. lia. }
  pose proof (rows_view rows) as Hview. cbn zeta in Hview.
  rewrite Hraw, Ha1, Ha2 in Hview.
  fold qs in Hview. fold t1 in Hview. fold t2 in Hview.
  destruct Hview as (E1 & E2 & E3 & E4).
  destruct (batch_iteration_rows rows w) as (sessions' & stdout' & Hrun).
  - by rewrite Hraw.
  - by rewrite E1, Ha1.
  - by rewrite E2, Ha2.
  - rewrite Hraw, E1, E2, E3, E4 in Hrun. eauto.
Qed.

End DriverFacts.

(** * Further properties of the code *)

(** ** Prompt builder *)

Section PromptMore.
Import Prompt.

Lemma build_conversation_prompt_parts (U0 B : list string) (final_msg : string) :
  length U0 = length B ->
  build_conversation_prompt (U0 ++ [final_msg]) B
  = Ok (String.concat " "
          (([BOS] ++ flat_map (fun '(u, b) => [INST_START; u; INST_END; b; EOS])
                              (zip U0 B))
           ++ [INST_START; final_msg; INST_END])).
Proof.
  intros Hlen. unfold build_conversation_prompt.
  rewrite decide_False by (rewrite length_app; cbn; lia).
  rewrite last_snoc, PromptFacts.foldl_extend.
  assert (zip (U0 ++ [final_msg]) B = zip U0 B) as ->; [|done].
  rewrite <- (app_nil_r B) at 1. rewrite zip_with_app by done.
  apply app_nil_r.
Qed.

(** X1: a completed turn only appends to the prompt.  When the prompt of a
    conversation (U, B) exists, the prompt after the bot reply b and the next
    user message u is the old prompt followed by " b </s> [INST] u [/INST]". *)
Theorem build_conversation_prompt_extends (U B : list string) (b u : string) :
  length U = length B + 1 ->
  exists prompt,
    build_conversation_prompt U B = Ok prompt
    /\ build_conversation_prompt (U ++ [u]) (B ++ [b])
       = Ok (prompt +:+ " " +:+ b +:+ " </s> [INST] " +:+ u +:+ " [/INST]").
Proof.
  intros Hlen. destruct U as [|u0 U0] using rev_ind; [cbn in Hlen; lia|].
  clear IHU0. rewrite length_app in Hlen. cbn in Hlen.
  assert (length U0 = length B) as Hlen0 by lia.
  eexists. split; [by apply build_conversation_prompt_parts|].
  rewrite (build_conversation_prompt_parts (U0 ++ [u0]) (B ++ [b]) u)
    by (rewrite !length_app; cbn; lia).
  f_equal. rewrite zip_with_app by done.
  rewrite flat_map_app, app_assoc.
  set (front := [BOS] ++ flat_map (fun '(u1, b0) =>
                                    [INST_START; u1; INST_END; b0; EOS])
                                 (zip U0 B)).
  change (flat_map (fun '(u1, b0) => [INST_START; u1; INST_END; b0; EOS])
                   (zip [u0] [b]))
    with [INST_START; u0; INST_END; b; EOS].
  replace ((front ++ [INST_START; u0; INST_END; b; EOS])
           ++ [INST_START; u; INST_END])
    with ((front ++ [INST_START; u0; INST_END])
          ++ [b; EOS; INST_START; u; INST_END])
    by (by rewrite <- !app_assoc).
  rewrite (concat_app " " (front ++ _)) by (done || by destruct front).
  reflexivity.
Qed.

Lemma build_conversation_prompt_extends_witness :
  exists prompt,
    build_conversation_prompt ["a"] [] = Ok prompt
    /\ build_conversation_prompt ["a"; "c"] ["b"]
       = Ok (prompt +:+ " " +:+ "b" +:+ " </s> [INST] " +:+ "c" +:+ " [/INST]").
Proof.
  apply (build_conversation_prompt_extends ["a"] [] "b" "c"). reflexivity.
Defined.

End PromptMore.

(** ** Output formatter *)

Section FormatMore.

Lemma format_session_writes_transcript_only (s s' : session) :
  format_session s = Ok s' ->
  exists text, s' = set_formatted_output text s.
Proof.
  unfold format_session.
  destruct (question_formatted s) as [q|]; [|done].
  destruct (answers s) as [a|]; [|done].
  cbn. intros [= <-]. eauto.
Qed.

(** X2: whatever the store holds and whether or not the call raises,
    [format_session_outputs] keeps the question ids and their order and
    never changes a session's raw question, formatted question, answers or
    final answers. *)
Theorem format_session_outputs_frame (sessions : store) :
  (format_session_outputs sessions).1.*1 = sessions.*1
  /\ Forall2 (fun before after =>
                question_raw after.2 = question_raw before.2
                /\ question_formatted after.2 = question_formatted before.2
                /\ answers after.2 = answers before.2
                /\ final_answers after.2 = final_answers before.2)
             sessions (format_session_outputs sessions).1.
Proof.
  induction sessions as [|[id s] sessions [IHk IHf]]; [by split; constructor|].
  cbn [format_session_outputs].
  destruct (format_session s) as [s'|e] eqn:E.
  - destruct (format_session_writes_transcript_only s s' E) as [text ->].
    destruct (format_session_outputs sessions) as [rest raised].
    cbn in *. split; [by rewrite IHk|]. by constructor.
  - cbn [fst]. split; [done|]. apply Forall_Forall2_diag, Forall_forall.
    by intros.
Qed.

Lemma format_session_outputs_app (pre rest : store) :
  Forall (fun p => is_Some (question_formatted p.2) /\ is_Some (answers p.2))
         pre ->
  exists pre',
    Forall2 rendered pre pre'
    /\ format_session_outputs (pre ++ rest)
       = (pre' ++ (format_session_outputs rest).1,
          (format_session_outputs rest).2).
Proof.
  induction 1 as [|[id s] pre [[q Hq] [a Ha]] _ (pre' & Hpre & IH)].
  - exists []. split; [constructor|]. cbn [app].
    by destruct (format_session_outputs rest).
  - cbn in Hq, Ha.
    exists ((id, set_formatted_output (transcript q a (final_answers s)) s)
            :: pre').
    split.
    + constructor; [|done]. split; [done|]. cbn. eauto.
    + cbn [app format_session_outputs].
      rewrite (format_session_transcript s q a Hq Ha), IH. reflexivity.
Qed.

(** X3: the formatter stops at the first session that lacks a formatted
    question or an answer list.  The sessions before it have their
    transcripts written; that session and all later ones are left as they
    were, and the call raises the [KeyError] of the entry that is missing:
    "question_formatted" when that one is absent, "answers" otherwise. *)
Theorem format_session_outputs_stops_at_first (pre post : store)
    (question_id : string) (s : session) :
  Forall (fun p => is_Some (question_formatted p.2) /\ is_Some (answers p.2))
         pre ->
  question_formatted s = None \/ answers s = None ->
  exists pre',
    Forall2 rendered pre pre'
    /\ format_session_outputs (pre ++ (question_id, s) :: post)
       = (pre' ++ (question_id, s) :: post,
          Some (KeyError match question_formatted s with
                         | None => "question_formatted"
                         | Some _ => "answers"
                         end)).
Proof.
  intros Hpre Hmissing.
  destruct (format_session_outputs_app pre ((question_id, s) :: post) Hpre)
    as (pre' & Hrendered & ->).
  exists pre'. split; [done|].
  cbn [format_session_outputs].
  assert (format_session s
          = Raise (KeyError match question_formatted s with
                            | None => "question_formatted"
                            | Some _ => "answers"
                            end)) as ->.
  { unfold format_session.
    destruct (question_formatted s) as [q|]; cbn; [|done].
    destruct Hmissing as [|Ha]; [done|]. by rewrite Ha. }
  reflexivity.
Qed.

Lemma format_session_outputs_stops_at_first_witness :
  let done_ := mk_session None (Some "Q") (Some ["A"]) None None in
  let fresh := mk_session None (Some "Q") None None None in
  exists pre',
    Forall2 rendered [("q1", done_)] pre'
    /\ format_session_outputs ([("q1", done_)] ++ ("q2", fresh) :: [("q3", done_)])
       = (pre' ++ ("q2", fresh) :: [("q3", done_)], Some (KeyError "answers")).
Proof.
  intros done_ fresh.
  apply (format_session_outputs_stops_at_first [("q1", done_)] [("q3", done_)]
           "q2" fresh).
  - repeat constructor; cbn; eauto.
  - by right.
Defined.

(** X4: formatting after round 2 extends the round-1 transcript.  For a
    session without final answers, the transcript written after final
    answers are attached is the earlier transcript followed by one
    FINAL ANSWER block per final answer, in order. *)
Theorem format_session_outputs_appends_final_blocks (question_id : string)
    (s : session) (finals : list string) :
  is_Some (question_formatted s) ->
  is_Some (answers s) ->
  final_answers s = None ->
  exists text,
    format_session_outputs [(question_id, s)]
    = ([(question_id, set_formatted_output text s)], None)
    /\ format_session_outputs
         [(question_id, set_final_answers finals (set_formatted_output text s))]
       = ([(question_id,
            set_formatted_output (text +:+ str_concat (final_block <$> finals))
              (set_final_answers finals (set_formatted_output text s)))],
          None).
Proof.
  intros [q Hq] [a Ha] Hf. exists (transcript q a None).
  cbn [format_session_outputs].
  rewrite (format_session_transcript s q a Hq Ha), Hf.
  rewrite (format_session_transcript
             (set_final_answers finals
                (set_formatted_output (transcript q a None) s)) q a)
    by done.
  cbn [final_answers set_final_answers]. split; [done|].
  unfold transcript. cbn [default].
  change (str_concat (final_block <$> [])) with "".
  by rewrite append_nil_r, !append_assoc.
Qed.

Lemma format_session_outputs_appends_final_blocks_witness :
  let s := mk_session None (Some "Q") (Some ["A"]) None None in
  exists text,
    format_session_outputs [("q1", s)]
    = ([("q1", set_formatted_output text s)], None)
    /\ format_session_outputs
         [("q1", set_final_answers ["F"] (set_formatted_output text s))]
       = ([("q1",
            set_formatted_output (text +:+ str_concat (final_block <$> ["F"]))
              (set_final_answers ["F"] (set_formatted_output text s)))],
          None).
Proof.
  intros s.
  apply (format_session_outputs_appends_final_blocks "q1" s ["F"]);
    cbn; eauto.
Defined.

End FormatMore.

(** ** The two rounds in sequence *)

Section RoundFacts.

Variable llm_generate : list string -> SamplingParams -> list (list string).

Lemma rendered_transcripts (before after : store) :
  Forall2 rendered before after ->
  exists ts, Forall2 (fun p t => formatted_output p.2 = Some t) after ts.
Proof.
  intros Hall. apply Forall_exists_Forall2_l.
  induction Hall as [|p p' before after (_ & q & a & _ & _ & Hp') _ IH];
    constructor; [|done].
  rewrite Hp'. cbn. eauto.
Qed.

(** C6: round 1 ([answer_batch_questions]) submits one request holding, per
    session in store order, the single-turn prompt the Prompt Builder makes
    of the formatted question with no bot turn, with n=7, best_of=10 and
    max_tokens=1024 by default.  Round 2 ([answer_batch_questions_final])
    submits one request holding, per session, the single-turn prompt whose
    user turn is the transcript, a newline, the line of ten "~", two
    newlines and the final-answer instruction, with n=1, best_of=3 and
    max_tokens=1024 by default.  And in sequence, with distinct ids and a
    result for every prompt: round 1 stores the results, the formatter
    renders them without raising, and the transcripts in the request of
    round 2 are these renderings. *)
Theorem batch_rounds_submit (sessions : store) (qs : list string) :
  Forall2 (fun p q => question_formatted p.2 = Some q) sessions qs ->
  rd_requests (answer_batch_questions llm_generate sessions None None)
  = [mk_request (single_turn_prompt <$> qs) (mk_params 7 10 1024)]
  /\ (forall text,
        Prompt.build_conversation_prompt [text] []
        = Ok (single_turn_prompt text))
  /\ (forall (formatted : store) (ts : list string),
        Forall2 (fun p t => formatted_output p.2 = Some t) formatted ts ->
        rd_requests (answer_batch_questions_final llm_generate formatted
                                                  None None)
        = [mk_request ((single_turn_prompt ∘ final_prompt_text) <$> ts)
                      (mk_params 1 3 1024)])
  /\ (NoDup sessions.*1 ->
      length sessions
      <= length (llm_generate (single_turn_prompt <$> qs)
                              (mk_params 7 10 1024)) ->
      exists (formatted : store) (ts : list string),
        rd_sessions (answer_batch_questions llm_generate sessions None None)
        = zip_with (fun p out => (p.1, set_answers out p.2)) sessions
            (llm_generate (single_turn_prompt <$> qs) (mk_params 7 10 1024))
        /\ format_session_outputs
             (rd_sessions
                (answer_batch_questions llm_generate sessions None None))
           = (formatted, None)
        /\ Forall2 rendered
             (rd_sessions
                (answer_batch_questions llm_generate sessions None None))
             formatted
        /\ Forall2 (fun p t => formatted_output p.2 = Some t) formatted ts
        /\ rd_requests (answer_batch_questions_final llm_generate formatted
                                                     None None)
           = [mk_request ((single_turn_prompt ∘ final_prompt_text) <$> ts)
                         (mk_params 1 3 1024)]).
Proof.
  intros Hqs.
  assert (forall (formatted : store) (ts : list string),
            Forall2 (fun p t => formatted_output p.2 = Some t) formatted ts ->
            rd_requests (answer_batch_questions_final llm_generate formatted
                                                      None None)
            = [mk_request ((single_turn_prompt ∘ final_prompt_text) <$> ts)
                          (mk_params 1 3 1024)]) as Hround2.
  { intros formatted ts Hts. unfold answer_batch_questions_final.
    rewrite (round2_prompts formatted ts Hts).
    cbn [default]. by destruct (attach _ _ _ _). }
  split; [|split; [exact build_single_turn|split; [exact Hround2|]]].
  { unfold answer_batch_questions. rewrite (round1_prompts sessions qs Hqs).
    cbn [default]. by destruct (attach _ _ _ _). }
  intros Hnodup Hlen.
  set (results := llm_generate (single_turn_prompt <$> qs)
                               (mk_params 7 10 1024)) in *.
  set (answered := zip_with (fun p out => (p.1, set_answers out p.2))
                            sessions results).
  assert (rd_sessions (answer_batch_questions llm_generate sessions None None)
          = answered) as ->.
  { unfold answer_batch_questions. rewrite (round1_prompts sessions qs Hqs).
    pose proof (attach_spec set_answers results sessions [] (fun i => i))
      as Hattach.
    cbn [app length] in Hattach. unfold enumerate.
    cbn [default from_option id]. fold results.
    rewrite Hattach by (done || lia). by rewrite drop_0. }
  assert (Forall (fun p => is_Some (question_formatted p.2)
                           /\ is_Some (answers p.2)) answered) as Hall.
  { apply (Forall_zip_with_fst _ (fun p => is_Some (question_formatted p.2))).
    - eapply Forall2_Forall_l; [exact Hqs|].
      apply Forall_forall. intros q _ p Hp. eauto.
    - apply Forall_forall. intros out _ p Hp. cbn. eauto. }
  destruct (format_session_outputs_app answered [] Hall)
    as (formatted & Hrendered & Hformat).
  rewrite app_nil_r in Hformat. cbn in Hformat.
  rewrite app_nil_r in Hformat.
  destruct (rendered_transcripts answered formatted Hrendered) as [ts Hts].
  exists formatted, ts. eauto 10.
Qed.

End RoundFacts.

Lemma batch_rounds_submit_witness :
  let engine (prompts : list string) (_ : SamplingParams) :=
    (fun _ => ["x"]) <$> prompts in
  let q := mk_question "2+2?" (Some ["3"; "4"]) in
  rd_requests (answer_batch_questions engine [("q1", fresh_session q)]
                                      None None)
  = [mk_request [single_turn_prompt (spec_question q)] (mk_params 7 10 1024)]
  /\ exists formatted ts,
       format_session_outputs
         (rd_sessions (answer_batch_questions engine [("q1", fresh_session q)]
                                              None None))
       = (formatted, None)
       /\ Forall2 (fun p t => formatted_output p.2 = Some t) formatted ts
       /\ rd_requests (answer_batch_questions_final engine formatted None None)
          = [mk_request ((single_turn_prompt ∘ final_prompt_text) <$> ts)
                        (mk_params 1 3 1024)].
Proof.
  intros engine q.
  destruct (batch_rounds_submit engine [("q1", fresh_session q)]
              [spec_question q])
    as (Hround1 & _ & _ & Hchain).
  - by repeat constructor.
  - split; [exact Hround1|].
    destruct Hchain as (formatted & ts & _ & Hformat & _ & Hts & Hround2).
    + apply (bool_decide_unpack _). by vm_compute.
    + cbn. lia.
    + eauto.
Defined.

(** ** Session creation *)

Section SessionMore.

Lemma generate_sessions_prints_from (raw_questions : list (string * question))
    (sessions : store) (printed : list string) :
  (foldl generate_step (sessions, printed) raw_questions).2
  = printed ++ ((fun p => spec_question p.2) <$> raw_questions).
Proof.
  revert sessions printed.
  induction raw_questions as [|[id q] rest IH]; intros sessions printed.
  - by rewrite app_nil_r.
  - cbn [foldl generate_step]. rewrite IH, format_question_spec.
    by rewrite <- app_assoc.
Qed.

(** X5: [generate_sessions] prints the formatted text of every question,
    once each and in input order, whatever the ids are. *)
Theorem generate_sessions_prints (raw_questions : list (string * question)) :
  (generate_sessions raw_questions).2
  = (fun p => spec_question p.2) <$> raw_questions.
Proof. apply (generate_sessions_prints_from raw_questions [] []). Qed.

End SessionMore.

(** ** Batch answerer *)

Section BatchMore.

Variable llm_generate : list string -> SamplingParams -> list (list string).

(** X7: round 1 stores the engine's results by position.  With distinct
    question ids, a formatted question in every session and at least one
    result per prompt, [answer_batch_questions] raises nothing, submits one
    request with the given (or default) n and best_of and 1024 as
    max_tokens, and sets "answers" of the i-th session to the texts of the
    i-th result; ids, order and the other entries stay, and surplus results
    are ignored. *)
Theorem answer_batch_questions_stores_answers (sessions : store)
    (qs : list string) (n best_of : option nat) :
  NoDup sessions.*1 ->
  Forall2 (fun p q => question_formatted p.2 = Some q) sessions qs ->
  length sessions
  <= length (llm_generate (single_turn_prompt <$> qs)
                          (mk_params (default 7 n) (default 10 best_of) 1024)) ->
  answer_batch_questions llm_generate sessions n best_of
  = mk_round
      (zip_with (fun p out => (p.1, set_answers out p.2)) sessions
         (llm_generate (single_turn_prompt <$> qs)
                       (mk_params (default 7 n) (default 10 best_of) 1024)))
      [mk_request (single_turn_prompt <$> qs)
                  (mk_params (default 7 n) (default 10 best_of) 1024)]
      ["Generating answers..."] None.
Proof.
  intros Hnodup Hqs Hlen. unfold answer_batch_questions.
  rewrite (round1_prompts sessions qs Hqs).
  pose proof (attach_spec set_answers
                (llm_generate (single_turn_prompt <$> qs)
                   (mk_params (default 7 n) (default 10 best_of) 1024))
                sessions [] (fun i => i)) as Hattach.
  cbn [app length] in Hattach. unfold enumerate.
  rewrite Hattach by (done || lia). by rewrite drop_0.
Qed.

(** X8: round 2 stores the engine's results by position.  With distinct
    question ids, a transcript in every session and at least one result per
    prompt, [answer_batch_questions_final] raises nothing, submits one
    request and sets "final_answers" of the i-th session to the texts of
    the i-th result, leaving the answers and the transcript as they are. *)
Theorem answer_batch_questions_final_stores_finals (sessions : store)
    (ts : list string) (n best_of : option nat) :
  NoDup sessions.*1 ->
  Forall2 (fun p t => formatted_output p.2 = Some t) sessions ts ->
  length sessions
  <= length (llm_generate ((single_turn_prompt ∘ final_prompt_text) <$> ts)
                          (mk_params (default 1 n) (default 3 best_of) 1024)) ->
  answer_batch_questions_final llm_generate sessions n best_of
  = mk_round
      (zip_with (fun p out => (p.1, set_final_answers out p.2)) sessions
         (llm_generate ((single_turn_prompt ∘ final_prompt_text) <$> ts)
                       (mk_params (default 1 n) (default 3 best_of) 1024)))
      [mk_request ((single_turn_prompt ∘ final_prompt_text) <$> ts)
                  (mk_params (default 1 n) (default 3 best_of) 1024)]
      ["Generating final answers..."] None.
Proof.
  intros Hnodup Hts Hlen. unfold answer_batch_questions_final.
  rewrite (round2_prompts sessions ts Hts).
  pose proof (attach_spec set_final_answers
                (llm_generate ((single_turn_prompt ∘ final_prompt_text) <$> ts)
                   (mk_params (default 1 n) (default 3 best_of) 1024))
                sessions [] (fun i => i)) as Hattach.
  cbn [app length] in Hattach. unfold enumerate.
  rewrite Hattach by (done || lia). by rewrite drop_0.
Qed.

(** When the engine returns fewer results than there are sessions, the
    attaching loop stores what it has and then fails on the first index
    without a result. *)
Lemma attach_shortfall (setter : list string -> session -> session)
    (raw : list (list string)) (suf pre : store) (index : nat -> nat) :
  NoDup (pre ++ suf).*1 ->
  (forall i, index i = length pre + i) ->
  length pre <= length raw ->
  length raw < length pre + length suf ->
  attach setter raw (imap (fun i k => (index i, k)) suf.*1) (pre ++ suf)
  = (pre ++ zip_with (fun p out => (p.1, setter out p.2)) suf
                     (drop (length pre) raw)
         ++ drop (length raw - length pre) suf,
     Some IndexError).
Proof.
  revert pre index. induction suf as [|[k s] suf IH];
    intros pre index Hnodup Hindex Hle Hlt.
  { cbn in Hlt. lia. }
  rewrite fmap_cons, imap_cons. cbn [attach fst].
  destruct (raw !! index 0) as [out|] eqn:Hout.
  - rewrite Hindex, Nat.add_0_r in Hout.
    pose proof (lookup_lt_Some _ _ _ Hout) as Hlt'.
    assert (k ∉ pre.*1) as Hfresh.
    { rewrite fmap_app in Hnodup.
      apply NoDup_app in Hnodup as (_ & Hdisj & _).
      intros Hin. apply (Hdisj k Hin). cbn. left. }
    rewrite dict_get_app_fresh, dict_set_app_fresh by done.
    rewrite (cons_middle _ pre suf), app_assoc. unfold compose.
    rewrite (IH (pre ++ [(k, setter out s)]) (fun i => index (S i))).
    + rewrite (drop_S raw out (length pre) Hout).
      rewrite length_app. cbn [length zip_with fst snd].
      rewrite Nat.add_1_r, <- !app_assoc. cbn [app].
      replace (length raw - length pre) with (S (length raw - S (length pre)))
        by lia.
      reflexivity.
    + rewrite <- app_assoc. cbn. by rewrite !fmap_app in *.
    + intros i. rewrite Hindex, length_app. cbn. lia.
    + rewrite length_app. cbn. lia.
    + rewrite length_app. cbn in *. lia.
  - rewrite Hindex, Nat.add_0_r in Hout.
    apply lookup_ge_None_1 in Hout.
    rewrite (drop_ge raw) by done. rewrite zip_with_nil_r.
    replace (length raw - length pre) with 0 by lia.
    by rewrite drop_0.
Qed.

(** X9: an engine that returns too few results.  With distinct ids and a
    formatted question in every session, if the engine returns fewer
    results than prompts, [answer_batch_questions] raises [IndexError]
    after the request was submitted: the sessions that have a result got
    their answers, the remaining ones are unchanged. *)
Theorem answer_batch_questions_short_result (sessions : store)
    (qs : list string) (n best_of : option nat) :
  NoDup sessions.*1 ->
  Forall2 (fun p q => question_formatted p.2 = Some q) sessions qs ->
  length (llm_generate (single_turn_prompt <$> qs)
                       (mk_params (default 7 n) (default 10 best_of) 1024))
  < length sessions ->
  answer_batch_questions llm_generate sessions n best_of
  = let raw := llm_generate (single_turn_prompt <$> qs)
                 (mk_params (default 7 n) (default 10 best_of) 1024) in
    mk_round
      (zip_with (fun p out => (p.1, set_answers out p.2)) sessions raw
       ++ drop (length raw) sessions)
      [mk_request (single_turn_prompt <$> qs)
                  (mk_params (default 7 n) (default 10 best_of) 1024)]
      ["Generating answers..."] (Some IndexError).
Proof.
  intros Hnodup Hqs Hlen. unfold answer_batch_questions.
  rewrite (round1_prompts sessions qs Hqs).
  pose proof (attach_shortfall set_answers
                (llm_generate (single_turn_prompt <$> qs)
                   (mk_params (default 7 n) (default 10 best_of) 1024))
                sessions [] (fun i => i)) as Hattach.
  cbn [app length] in Hattach. unfold enumerate.
  rewrite Hattach by (done || lia). cbn zeta.
  by rewrite drop_0, Nat.sub_0_r.
Qed.

Lemma mapM_first_raise {A B : Type} (f : A -> result B) (l : list A) (e : exn) :
  Exists (fun x => f x = Raise e) l ->
  Forall (fun x => f x = Raise e \/ exists y, f x = Ok y) l ->
  mapM f l = Raise e.
Proof.
  intros Hex Hall. induction Hall as [|x l Hx _ IH]; [by inversion Hex|].
  cbn [mapM]. destruct Hx as [->|[y Hy]]; [done|].
  rewrite Hy. cbn [mbind result_bind].
  apply Exists_cons in Hex as [Hex|Hex]; [congruence|].
  by rewrite IH.
Qed.

(** X10: round 1 on a store with a session that has no formatted question
    raises [KeyError] for that key before the engine is contacted: no
    request is submitted, nothing is printed and the store is unchanged. *)
Theorem answer_batch_questions_missing_question (sessions : store)
    (n best_of : option nat) :
  Exists (fun p => question_formatted p.2 = None) sessions ->
  answer_batch_questions llm_generate sessions n best_of
  = mk_round sessions [] [] (Some (KeyError "question_formatted")).
Proof.
  intros Hex. unfold answer_batch_questions.
  rewrite (mapM_first_raise _ sessions (KeyError "question_formatted")).
  - reflexivity.
  - eapply Exists_impl; [exact Hex|]. intros [id s] Hs. cbn in *.
    unfold question_prompt. by rewrite Hs.
  - apply Forall_forall. intros [id s] _. cbn. unfold question_prompt.
    destruct (question_formatted s) as [q|]; cbn; eauto.
Qed.

(** X11: round 2 on a store with a session that has no transcript, for
    instance right after round 1 with the formatter not yet run, raises
    [KeyError] for "formatted_output" before the engine is contacted: no
    request is submitted, nothing is printed and the store is unchanged. *)
Theorem answer_batch_questions_final_missing_transcript (sessions : store)
    (n best_of : option nat) :
  Exists (fun p => formatted_output p.2 = None) sessions ->
  answer_batch_questions_final llm_generate sessions n best_of
  = mk_round sessions [] [] (Some (KeyError "formatted_output")).
Proof.
  intros Hex. unfold answer_batch_questions_final.
  rewrite (mapM_first_raise _ sessions (KeyError "formatted_output")).
  - reflexivity.
  - eapply Exists_impl; [exact Hex|]. intros [id s] Hs. cbn in *.
    unfold final_prompt. by rewrite Hs.
  - apply Forall_forall. intros [id s] _. cbn. unfold final_prompt.
    destruct (formatted_output s) as [t|]; cbn; eauto.
Qed.

End BatchMore.

Lemma answer_batch_questions_stores_answers_witness :
  let engine (prompts : list string) (_ : SamplingParams) :=
    (fun p => [p; "x"]) <$> prompts in
  let s := mk_session None (Some "Q") None None None in
  rd_sessions (answer_batch_questions engine [("q1", s)] None (Some 3))
  = [("q1", set_answers [single_turn_prompt "Q"; "x"] s)].
Proof.
  intros engine s.
  rewrite (answer_batch_questions_stores_answers engine [("q1", s)] ["Q"]
             None (Some 3)).
  - reflexivity.
  - apply (bool_decide_unpack _). by vm_compute.
  - by repeat constructor.
  - cbn. lia.
Defined.

Lemma answer_batch_questions_final_stores_finals_witness :
  let engine (prompts : list string) (_ : SamplingParams) :=
    (fun _ => ["F"]) <$> prompts in
  let s := mk_session None (Some "Q") (Some ["A"]) None (Some "T") in
  rd_sessions (answer_batch_questions_final engine [("q1", s)] None None)
  = [("q1", set_final_answers ["F"] s)].
Proof.
  intros engine s.
  rewrite (answer_batch_questions_final_stores_finals engine [("q1", s)] ["T"]
             None None).
  - reflexivity.
  - apply (bool_decide_unpack _). by vm_compute.
  - by repeat constructor.
  - cbn. lia.
Defined.

Lemma answer_batch_questions_short_result_witness :
  let engine (prompts : list string) (_ : SamplingParams) :=
    take 1 ((fun _ => ["A"]) <$> prompts) in
  let s := mk_session None (Some "Q") None None None in
  answer_batch_questions engine [("q1", s); ("q2", s)] None None
  = mk_round [("q1", set_answers ["A"] s); ("q2", s)]
             [mk_request [single_turn_prompt "Q"; single_turn_prompt "Q"]
                         (mk_params 7 10 1024)]
             ["Generating answers..."] (Some IndexError).
Proof.
  intros engine s.
  rewrite (answer_batch_questions_short_result engine [("q1", s); ("q2", s)]
             ["Q"; "Q"] None None).
  - reflexivity.
  - apply (bool_decide_unpack _). by vm_compute.
  - by repeat constructor.
  - cbn. lia.
Defined.

Lemma answer_batch_questions_missing_question_witness :
  let engine (prompts : list string) (_ : SamplingParams) :=
    (fun _ => ["A"]) <$> prompts in
  let s := mk_session None None None None None in
  rd_requests (answer_batch_questions engine [("q1", s)] None None) = [].
Proof.
  intros engine s.
  rewrite (answer_batch_questions_missing_question engine [("q1", s)] None None);
    [reflexivity|]. by left.
Defined.

Lemma answer_batch_questions_final_missing_transcript_witness :
  let engine (prompts : list string) (_ : SamplingParams) :=
    (fun _ => ["F"]) <$> prompts in
  let answered := mk_session None (Some "Q") (Some ["A"]) None None in
  rd_requests (answer_batch_questions_final engine [("q1", answered)] None None)
  = [].
Proof.
  intros engine answered.
  rewrite (answer_batch_questions_final_missing_transcript engine
             [("q1", answered)] None None);
    [reflexivity|]. by left.
Defined.

(** ** Persistence *)

Section SaveMore.

Lemma save_loop_app (pre rest : store) (items : list (string * string))
    (ordinal : nat -> nat) (written : string) :
  Forall2 (fun p item => item.1 = p.1 /\ formatted_output p.2 = Some item.2)
          pre items ->
  save_loop (imap (fun i p => (ordinal i, p)) (pre ++ rest)) written
  = save_loop (imap (fun i p => (ordinal (length pre + i), p)) rest)
      (written
       +:+ str_concat
             (imap (fun i item =>
                      question_header (ordinal i) item.1 +:+ item.2
                      +:+ LF +:+ LF +:+ LF)
                   items)).
Proof.
  intros Hall. revert ordinal written.
  induction Hall as [|[id s] [id' t] pre items [Hid Ht] _ IH];
    intros ordinal written.
  { by rewrite append_nil_r. }
  cbn in Hid, Ht. subst id'.
  cbn [app]. rewrite !imap_cons. cbn [save_loop]. rewrite Ht. cbn [getitem].
  unfold compose. rewrite (IH (fun i => ordinal (S i))), str_concat_cons.
  cbn [length Nat.add]. f_equal.
  unfold question_header. cbn [fst snd]. by rewrite !append_assoc.
Qed.

(** X12: a session without a transcript stops the save.  The file has been
    opened for writing, so its old content is gone; it holds the blocks of
    the sessions before the one without "formatted_output", nothing of the
    later ones, and the call raises [KeyError]. *)
Theorem save_file_stops_at_missing_transcript (files : gmap string string)
    (pre post : store) (question_id : string) (s : session)
    (items : list (string * string)) (filename : option string) :
  Forall2 (fun p item => item.1 = p.1 /\ formatted_output p.2 = Some item.2)
          pre items ->
  formatted_output s = None ->
  save_file files (pre ++ (question_id, s) :: post) filename
  = (<[default "answers.txt" filename := file_text items]> files,
     Some (KeyError "formatted_output")).
Proof.
  intros Hpre Hnone. unfold save_file, enumerate.
  pose proof (save_loop_app pre ((question_id, s) :: post) items
                (fun i => i) "" Hpre) as Hloop.
  cbn beta in Hloop. rewrite Hloop, imap_cons. cbn [save_loop].
  by rewrite Hnone.
Qed.

Lemma save_file_stops_at_missing_transcript_witness :
  let s t := mk_session None (Some "Q") (Some []) None t in
  save_file {["answers.txt" := "old"]}
            ([("a", s (Some "T0"))] ++ ("b", s None) :: [("c", s (Some "T2"))])
            None
  = (<["answers.txt" := file_text [("a", "T0")]]> {["answers.txt" := "old"]},
     Some (KeyError "formatted_output")).
Proof.
  intros s.
  apply (save_file_stops_at_missing_transcript {["answers.txt" := "old"]}
           [("a", s (Some "T0"))] [("c", s (Some "T2"))] "b" (s None)
           [("a", "T0")] None).
  - by repeat constructor.
  - reflexivity.
Defined.

End SaveMore.

(** ** The batch driver *)

Section DriverMore.

Variable llm_generate : list string -> SamplingParams -> list (list string).

(** The rows of a run: every question with the results the engine gives in
    round 1 and in round 2. *)
Lemma run_rows (raw_questions : list (string * question)) :
  (forall prompts params,
     length (llm_generate prompts params) = length prompts) ->
  exists rows : list row,
    rows.*1 = raw_questions
    /\ llm_generate ((fun r => single_turn_prompt (spec_question r.1.2)) <$> rows)
                    (mk_params 7 10 1024)
       = (fun r => r.2.1) <$> rows
    /\ llm_generate ((fun r => single_turn_prompt
                                 (final_prompt_text (row_transcript1 r)))
                       <$> rows)
                    (mk_params 1 3 1024)
       = (fun r => r.2.2) <$> rows.
Proof.
  intros Htotal.
  set (qs := (spec_question ∘ snd) <$> raw_questions).
  set (a1 := llm_generate (single_turn_prompt <$> qs) (mk_params 7 10 1024)).
  set (t1 := zip_with (fun q a => transcript q a None) qs a1).
  set (a2 := llm_generate ((single_turn_prompt ∘ final_prompt_text) <$> t1)
                          (mk_params 1 3 1024)).
  assert (length a1 = length raw_questions) as Hlen1.
  { unfold a1, qs. by rewrite Htotal, !length_fmap. }
  assert (length a2 = length raw_questions) as Hlen2.
  { unfold a2, t1, qs.
    rewrite Htotal, length_fmap, length_zip_with, length_fmap. lia. }
  set (rows := zip raw_questions (zip a1 a2)).
  assert (rows.*1 = raw_questions) as Hraw.
  { apply fst_zip. rewrite length_zip. lia. }
  assert (rows.*2 = zip a1 a2) as Hrest.
  { apply snd_zip. rewrite length_zip. lia. }
  assert ((fun r : row => r.2.1) <$> rows = a1) as Ha1.
  { trans (rows.*2.*1); [by rewrite <- list_fmap_compose|].
    rewrite Hrest. apply fst_zip. lia. }
  assert ((fun r : row => r.2.2) <$> rows = a2) as Ha2.
  { trans (rows.*2.*2); [by rewrite <- list_fmap_compose|].
    rewrite Hrest. apply snd_zip. lia. }
  pose proof (rows_view rows) as Hview. cbn zeta in Hview.
  rewrite Hraw, Ha1 in Hview. fold qs in Hview. fold t1 in Hview.
  destruct Hview as (E1 & E2 & _).
  exists rows. by rewrite E1, E2, Ha1, Ha2.
Qed.

(** X14: the store a run leaves.  After one pass over questions with
    distinct ids, with an engine that answers every prompt, the store holds
    one session per question, in input order and under its id, with the raw
    and the formatted question, answers, final answers, and a transcript
    that is the one of exactly these entries. *)
Theorem batch_iteration_finalizes (raw_questions : list (string * question))
    (w : world) :
  NoDup raw_questions.*1 ->
  (forall prompts params,
     length (llm_generate prompts params) = length prompts) ->
  exists w',
    batch_iteration llm_generate raw_questions w = (w', None)
    /\ Forall2
         (fun item p =>
            p.1 = item.1
            /\ question_raw p.2 = Some item.2
            /\ question_formatted p.2 = Some (spec_question item.2)
            /\ exists a f,
                 answers p.2 = Some a
                 /\ final_answers p.2 = Some f
                 /\ formatted_output p.2
                    = Some (transcript (spec_question item.2) a (Some f)))
         raw_questions (w_sessions w').
Proof.
  intros Hnodup Htotal.
  destruct (run_rows raw_questions Htotal) as (rows & Hraw & Hgen1 & Hgen2).
  destruct (batch_iteration_rows_store llm_generate rows w)
    as [stdout' Hrun]; [by rewrite Hraw|done|done|].
  rewrite Hraw in Hrun. eexists. split; [exact Hrun|].
  cbn [w_sessions]. rewrite <- Hraw.
  apply Forall2_fmap, Forall_Forall2_diag, Forall_forall.
  intros r _. cbn. repeat split. eauto.
Qed.

(** X15: a short engine result ends the run.  If in round 1 the engine
    returns fewer results than there are questions, the pass stops with
    [IndexError]: one request has been submitted, and no file has been
    written or changed. *)
Theorem batch_iteration_stops_on_short_result
    (raw_questions : list (string * question)) (w : world) :
  NoDup raw_questions.*1 ->
  length (llm_generate
            ((fun p => single_turn_prompt (spec_question p.2)) <$> raw_questions)
            (mk_params 7 10 1024))
  < length raw_questions ->
  exists w',
    batch_iteration llm_generate raw_questions w = (w', Some IndexError)
    /\ w_files w' = w_files w
    /\ w_requests w'
       = w_requests w
         ++ [mk_request ((fun p => single_turn_prompt (spec_question p.2))
                           <$> raw_questions)
                        (mk_params 7 10 1024)].
Proof.
  intros Hnodup Hshort.
  set (created := (fun p : string * question => (p.1, fresh_session p.2))
                    <$> raw_questions).
  assert (created.*1 = raw_questions.*1) as Hkeys.
  { unfold created. rewrite <- list_fmap_compose. by apply list_fmap_ext. }
  assert (mapM (fun item => question_prompt item.2) created
          = Ok ((fun p => single_turn_prompt (spec_question p.2))
                  <$> raw_questions)) as Hprompts.
  { apply mapM_Ok. unfold created.
    apply Forall2_fmap, Forall_Forall2_diag, Forall_forall. by intros [id q] _. }
  unfold batch_iteration, and_then, run_generate at 1.
  unfold generate_sessions.
  rewrite (generate_sessions_loop raw_questions [] []) by done.
  cbn [app]. fold created.
  unfold run_round at 1, answer_batch_questions.
  cbn [w_sessions default from_option id]. rewrite Hprompts.
  pose proof (attach_shortfall set_answers
                (llm_generate
                   ((fun p => single_turn_prompt (spec_question p.2))
                      <$> raw_questions)
                   (mk_params 7 10 1024))
                created [] (fun i => i)) as Hattach.
  cbn [app length] in Hattach. unfold enumerate.
  rewrite Hattach;
    [|by rewrite Hkeys|done|lia|unfold created; rewrite length_fmap; lia].
  cbn. eauto.
Qed.

End DriverMore.

Lemma batch_iteration_runs_witness :
  let engine (prompts : list string) (_ : SamplingParams) :=
    (fun _ => ["A"]) <$> prompts in
  let raw := [("q1", mk_question "2+2?" (Some ["3"; "4"]))] in
  exists sessions' stdout' files',
    batch_iteration engine raw (mk_world [] ∅ [] [])
    = (mk_world sessions' files'
         [mk_request [single_turn_prompt (spec_question (mk_question "2+2?" (Some ["3"; "4"])))]
                     (mk_params 7 10 1024);
          mk_request
            [single_turn_prompt
               (final_prompt_text
                  (transcript (spec_question (mk_question "2+2?" (Some ["3"; "4"])))
                              ["A"] None))]
            (mk_params 1 3 1024)]
         stdout',
       None).
Proof.
  intros engine raw.
  destruct (batch_iteration_runs engine raw (mk_world [] ∅ [] []))
    as (sessions' & stdout' & Hrun).
  - apply (bool_decide_unpack _). by vm_compute.
  - intros prompts params. unfold engine. by rewrite length_fmap.
  - rewrite Hrun. by eexists _, _, _.
Defined.

Lemma batch_iteration_finalizes_witness :
  let engine (prompts : list string) (_ : SamplingParams) :=
    (fun _ => ["A"]) <$> prompts in
  exists w',
    batch_iteration engine [("q1", mk_question "2+2?" None)]
                    (mk_world [] ∅ [] [])
    = (w', None).
Proof.
  intros engine.
  destruct (batch_iteration_finalizes engine [("q1", mk_question "2+2?" None)]
              (mk_world [] ∅ [] []))
    as (w' & Hrun & _).
  - apply (bool_decide_unpack _). by vm_compute.
  - intros prompts params. unfold engine. by rewrite length_fmap.
  - eauto.
Defined.

Lemma batch_iteration_stops_on_short_result_witness :
  let engine (prompts : list string) (_ : SamplingParams) :=
    @nil (list string) in
  exists w',
    batch_iteration engine [("q1", mk_question "2+2?" None)]
                    (mk_world [] {["answers.txt" := "old"]} [] [])
    = (w', Some IndexError)
    /\ w_files w' = {["answers.txt" := "old"]}.
Proof.
  intros engine.
  destruct (batch_iteration_stops_on_short_result engine
              [("q1", mk_question "2+2?" None)]
              (mk_world [] {["answers.txt" := "old"]} [] []))
    as (w' & Hrun & Hfiles & _).
  - apply (bool_decide_unpack _). by vm_compute.
  - cbn. lia.
  - eauto.
Defined.

(** ** Interactive driver *)

Section ChatMore.
Import Chat.

Variable chat_generate : string -> SamplingParams -> string.

Lemma multiline_input_from_reads (typed acc : list string) (prompt : string)
    (rest : list stdin_event) (out : list string) :
  Forall (fun line => line <> "") typed ->
  multiline_input_from acc prompt ((Line <$> typed) ++ Line "" :: rest) out
  = (Ok (String.concat LF (acc ++ typed)), rest,
     out ++ (if decide (0 < length acc) then "" else prompt)
         :: replicate (length typed) "").
Proof.
  intros Htyped. revert acc prompt out.
  induction Htyped as [|line typed Hline _ IH]; intros acc prompt out.
  - cbn. by rewrite app_nil_r.
  - cbn [fmap list_fmap app multiline_input_from].
    rewrite (decide_False (P := line = "")) by done.
    rewrite IH, <- !app_assoc.
    rewrite (decide_True (P := 0 < length (acc ++ [line])))
      by (rewrite length_app; cbn; lia).
    reflexivity.
Qed.

Lemma multiline_input_from_eof (typed acc : list string) (prompt : string)
    (out : list string) :
  Forall (fun line => line <> "") typed ->
  exists out',
    multiline_input_from acc prompt (Line <$> typed) out
    = (Raise EOFError, [], out').
Proof.
  intros Htyped. revert acc prompt out.
  induction Htyped as [|line typed Hline _ IH]; intros acc prompt out.
  - cbn. eauto.
  - cbn [fmap list_fmap multiline_input_from].
    rewrite (decide_False (P := line = "")) by done. apply IH.
Qed.

Lemma lines_concat (first : string) (more : list string) :
  Forall (fun line => lines line = [line]) (first :: more) ->
  lines (String.concat LF (first :: more)) = first :: more.
Proof.
  revert first. induction more as [|next more IH]; intros first Hall.
  - apply Forall_cons in Hall as [Hfirst _]. exact Hfirst.
  - apply Forall_cons in Hall as [Hfirst Hall].
    rewrite concat_cons2, lines_app_LF, Hfirst, (IH next Hall). reflexivity.
Qed.

(** X16: [multiline_input] reads up to the first blank line.  For typed
    lines that are non-empty and hold no line feed, followed by a blank
    line, it returns the lines joined by line feeds and leaves the input
    after the blank line unread; it shows the prompt once and an empty
    prompt for every further line; and splitting the returned text at line
    feeds gives back the typed lines (a single empty line when nothing was
    typed). *)
Theorem multiline_input_joins_lines (typed : list string) (prompt : string)
    (rest : list stdin_event) (out : list string) :
  Forall (fun line => line <> "" /\ lines line = [line]) typed ->
  multiline_input prompt ((Line <$> typed) ++ Line "" :: rest) out
  = (Ok (String.concat LF typed), rest,
     out ++ prompt :: replicate (length typed) "")
  /\ lines (String.concat LF typed)
     = match typed with [] => [""] | _ => typed end.
Proof.
  intros Htyped. split.
  - unfold multiline_input. rewrite multiline_input_from_reads; [done|].
    eapply Forall_impl; [exact Htyped|]. by intros line [? _].
  - destruct typed as [|first more]; [done|]. apply lines_concat.
    eapply Forall_impl; [exact Htyped|]. by intros line [_ ?].
Qed.

(** X17: when the input ends before a blank line is read, [input] raises
    [EOFError], which the driver does not catch: the loop ends and both
    message lists are as they were. *)
Theorem turn_stops_at_end_of_input (st : chat_state) (typed : list string) :
  Forall (fun line => line <> "") typed ->
  stdin st = Line <$> typed ->
  exists out,
    turn chat_generate st
    = (Uncaught EOFError,
       mk_chat (user_messages st) (bot_messages st) [] out).
Proof.
  intros Htyped Hin. unfold turn, multiline_input. rewrite Hin.
  destruct (multiline_input_from_eof typed []
              (LF +:+ LF +:+ USER +:+ " ["
               +:+ str_of_nat (length (user_messages st)) +:+ "]: ")
              (stdout st) Htyped) as [out' ->].
  cbn. eauto.
Qed.

(** X19: an ordinary turn.  From a conversation with as many bot messages
    as user messages, a message without "CLEAR" and "EXIT" and no Ctrl-C
    during generation, the loop continues with the message appended to the
    user messages and, appended to the bot messages, the engine's text for
    the prompt of the whole conversation under n=1, best_of=5,
    max_tokens=512.  An immediate blank line sends the empty message. *)
Theorem turn_appends_reply (st : chat_state) (typed : list string)
    (rest : list stdin_event) :
  Forall (fun line => line <> "") typed ->
  stdin st = (Line <$> typed) ++ Line "" :: rest ->
  head rest <> Some CtrlC ->
  str_contains "CLEAR" (String.concat LF typed) = false ->
  str_contains "EXIT" (String.concat LF typed) = false ->
  length (user_messages st) = length (bot_messages st) ->
  exists prompt out,
    Prompt.build_conversation_prompt
      (user_messages st ++ [String.concat LF typed]) (bot_messages st)
    = Ok prompt
    /\ turn chat_generate st
       = (Continue,
          mk_chat (user_messages st ++ [String.concat LF typed])
                  (bot_messages st ++ [chat_generate prompt (mk_params 1 5 512)])
                  rest out).
Proof.
  intros Htyped Hin Hhead Hclear Hexit Hlen. unfold turn, multiline_input.
  rewrite Hin, multiline_input_from_reads by done. cbn [app].
  rewrite Hclear, Hexit.
  rewrite PromptFacts.build_ok by (rewrite length_app; cbn; lia).
  eexists _, _. split; [reflexivity|].
  destruct rest as [|[line|] rest']; [reflexivity|reflexivity|done].
Qed.

(** X20: after an interrupted generation the next ordinary message ends
    the driver.  From a conversation with as many bot messages as user
    messages: a message, Ctrl-C while its reply is generated, then another
    message; the second pass of the loop raises the turn-count [ValueError]
    and nothing catches it. *)
Theorem interrupted_generation_then_message_is_fatal (st : chat_state)
    (first second : string) (rest : list stdin_event) :
  stdin st
  = Line first :: Line "" :: CtrlC :: Line second :: Line "" :: rest ->
  first <> "" -> second <> "" ->
  str_contains "CLEAR" first = false -> str_contains "EXIT" first = false ->
  str_contains "CLEAR" second = false -> str_contains "EXIT" second = false ->
  length (user_messages st) = length (bot_messages st) ->
  (repl chat_generate 2 st).1 = Uncaught Prompt.turn_count_error.
Proof.
  intros Hin H1 H2 Hc1 He1 Hc2 He2 Hlen. cbn [repl].
  destruct (turn_generation_interrupted chat_generate st first
              (Line second :: Line "" :: rest) Hin H1 Hc1 He1 Hlen)
    as [out ->].
  pose proof (turn_after_interruption chat_generate
                (mk_chat (user_messages st ++ [first]) (bot_messages st)
                         (Line second :: Line "" :: rest) out)
                second rest eq_refl H2 Hc2 He2) as Hnext.
  cbn [user_messages bot_messages] in Hnext.
  rewrite length_app in Hnext. cbn [length] in Hnext.
  specialize (Hnext ltac:(lia)).
  destruct (turn chat_generate _) as [[| |e] st']; cbn in *; congruence.
Qed.

(** X21: a message that contains "CLEAR" empties both message lists,
    whatever they held and also when the message contains "EXIT" as well;
    the loop continues, "Conversation cleared" is printed, and the engine is
    not consulted. *)
Theorem turn_clears_conversation (st : chat_state) (typed : list string)
    (rest : list stdin_event) :
  Forall (fun line => line <> "") typed ->
  stdin st = (Line <$> typed) ++ Line "" :: rest ->
  str_contains "CLEAR" (String.concat LF typed) = true ->
  exists out,
    turn chat_generate st
    = (Continue, mk_chat [] [] rest (out ++ ["Conversation cleared"])).
Proof.
  intros Htyped Hin Hclear. unfold turn, multiline_input.
  rewrite Hin, multiline_input_from_reads by done. cbn [app].
  rewrite Hclear. eauto.
Qed.

(** X22: a message that contains "EXIT" and not "CLEAR" leaves the loop:
    however many passes were still to come, the run ends there, with both
    message lists untouched and the rest of the input unread. *)
Theorem repl_exits (st : chat_state) (typed : list string)
    (rest : list stdin_event) (turns : nat) :
  Forall (fun line => line <> "") typed ->
  stdin st = (Line <$> typed) ++ Line "" :: rest ->
  str_contains "CLEAR" (String.concat LF typed) = false ->
  str_contains "EXIT" (String.concat LF typed) = true ->
  exists out,
    repl chat_generate (S turns) st
    = (Break,
       mk_chat (user_messages st) (bot_messages st) rest
               (out ++ ["Exiting..."])).
Proof.
  intros Htyped Hin Hclear Hexit. cbn [repl]. unfold turn, multiline_input.
  rewrite Hin, multiline_input_from_reads by done. cbn [app].
  rewrite Hclear, Hexit. eauto.
Qed.

Lemma multiline_input_from_cases (stdin : list stdin_event)
    (acc : list string) (prompt : string) (out : list string) :
  (exists message, (multiline_input_from acc prompt stdin out).1.1 = Ok message)
  \/ (multiline_input_from acc prompt stdin out).1.1 = Raise KeyboardInterrupt
  \/ (multiline_input_from acc prompt stdin out).1.1 = Raise EOFError.
Proof.
  revert acc prompt out.
  induction stdin as [|[line|] stdin IH]; intros acc prompt out;
    cbn [multiline_input_from].
  - by right; right.
  - destruct (decide (line = "")); [left; cbn; eauto|apply IH].
  - by right; left.
Qed.

(** X23: the turn-count check cannot fail in a balanced conversation.  From
    a conversation with as many bot messages as user messages, whatever is
    typed: if the loop continues, the bot messages are as many as the user
    messages or one fewer; if it leaves by "EXIT", both lists are
    unchanged; and the only exception that can escape is [EOFError]. *)
Theorem turn_keeps_balance (st : chat_state) :
  length (user_messages st) = length (bot_messages st) ->
  match turn chat_generate st with
  | (Continue, st') =>
      length (user_messages st') = length (bot_messages st')
      \/ length (user_messages st') = length (bot_messages st') + 1
  | (Break, st') =>
      user_messages st' = user_messages st
      /\ bot_messages st' = bot_messages st
  | (Uncaught e, _) => e = EOFError
  end.
Proof.
  intros Hlen. unfold turn, multiline_input.
  pose proof (multiline_input_from_cases (stdin st) []
                (LF +:+ LF +:+ USER +:+ " ["
                 +:+ str_of_nat (length (user_messages st)) +:+ "]: ")
                (stdout st)) as Hcases.
  destruct (multiline_input_from _ _ _ _) as [[r sin] sout]. cbn in Hcases.
  destruct Hcases as [[message ->]|[->| ->]].
  - destruct (str_contains "CLEAR" message); [by left|].
    destruct (str_contains "EXIT" message); [done|].
    rewrite PromptFacts.build_ok by (rewrite length_app; cbn; lia).
    destruct sin as [|[line|] sin']; cbn;
      rewrite !length_app; cbn; lia.
  - cbn. by left.
  - reflexivity.
Qed.

End ChatMore.

Lemma multiline_input_joins_lines_witness :
  Chat.multiline_input "> " [Chat.Line "a"; Chat.Line "b"; Chat.Line "";
                             Chat.Line "c"] []
  = (Ok ("a" +:+ LF +:+ "b"), [Chat.Line "c"], ["> "; ""; ""]).
Proof.
  apply (multiline_input_joins_lines ["a"; "b"] "> " [Chat.Line "c"] []).
  repeat constructor; by vm_compute.
Defined.

Lemma turn_stops_at_end_of_input_witness :
  exists out,
    Chat.turn (fun _ _ => "reply")
              (Chat.mk_chat ["u"] ["b"] [Chat.Line "half a message"] [])
    = (Chat.Uncaught EOFError, Chat.mk_chat ["u"] ["b"] [] out).
Proof.
  apply (turn_stops_at_end_of_input (fun _ _ => "reply")
           (Chat.mk_chat ["u"] ["b"] [Chat.Line "half a message"] [])
           ["half a message"]).
  - by repeat constructor.
  - reflexivity.
Defined.

Lemma turn_input_interrupted_witness :
  exists out,
    Chat.turn (fun _ _ => "reply")
              (Chat.mk_chat ["u"] ["b"]
                            [Chat.Line "typing"; Chat.CtrlC; Chat.Line "next"] [])
    = (Chat.Continue, Chat.mk_chat ["u"] ["b"] [Chat.Line "next"] out).
Proof.
  apply (turn_input_interrupted (fun _ _ => "reply")
           (Chat.mk_chat ["u"] ["b"]
                         [Chat.Line "typing"; Chat.CtrlC; Chat.Line "next"] [])
           ["typing"] [Chat.Line "next"]).
  - by repeat constructor.
  - reflexivity.
Defined.

Lemma turn_appends_reply_witness :
  exists prompt out,
    Prompt.build_conversation_prompt ["u"; "hi"] ["b"] = Ok prompt
    /\ Chat.turn (fun _ _ => "reply")
                 (Chat.mk_chat ["u"] ["b"] [Chat.Line "hi"; Chat.Line ""] [])
       = (Chat.Continue, Chat.mk_chat ["u"; "hi"] ["b"; "reply"] [] out).
Proof.
  apply (turn_appends_reply (fun _ _ => "reply")
           (Chat.mk_chat ["u"] ["b"] [Chat.Line "hi"; Chat.Line ""] [])
           ["hi"] []).
  - by repeat constructor.
  - reflexivity.
  - done.
  - reflexivity.
  - reflexivity.
  - reflexivity.
Defined.

Lemma interrupted_generation_then_message_is_fatal_witness :
  (Chat.repl (fun _ _ => "reply") 2
     (Chat.mk_chat [] []
        [Chat.Line "one"; Chat.Line ""; Chat.CtrlC;
         Chat.Line "two"; Chat.Line ""] [])).1
  = Chat.Uncaught Prompt.turn_count_error.
Proof.
  apply (interrupted_generation_then_message_is_fatal (fun _ _ => "reply")
           (Chat.mk_chat [] []
              [Chat.Line "one"; Chat.Line ""; Chat.CtrlC;
               Chat.Line "two"; Chat.Line ""] [])
           "one" "two" []);
    done.
Defined.

Lemma turn_clears_conversation_witness :
  exists out,
    Chat.turn (fun _ _ => "reply")
              (Chat.mk_chat ["u"; "pending"] ["b"]
                            [Chat.Line "CLEAR and EXIT"; Chat.Line ""] [])
    = (Chat.Continue,
       Chat.mk_chat [] [] [] (out ++ ["Conversation cleared"])).
Proof.
  apply (turn_clears_conversation (fun _ _ => "reply")
           (Chat.mk_chat ["u"; "pending"] ["b"]
                         [Chat.Line "CLEAR and EXIT"; Chat.Line ""] [])
           ["CLEAR and EXIT"] []).
  - by repeat constructor.
  - reflexivity.
  - reflexivity.
Defined.

Lemma repl_exits_witness :
  exists out,
    Chat.repl (fun _ _ => "reply") 5
              (Chat.mk_chat ["u"] ["b"]
                            [Chat.Line "please EXIT"; Chat.Line "";
                             Chat.Line "unread"] [])
    = (Chat.Break,
       Chat.mk_chat ["u"] ["b"] [Chat.Line "unread"] (out ++ ["Exiting..."])).
Proof.
  apply (repl_exits (fun _ _ => "reply")
           (Chat.mk_chat ["u"] ["b"]
                         [Chat.Line "please EXIT"; Chat.Line "";
                          Chat.Line "unread"] [])
           ["please EXIT"] [Chat.Line "unread"] 4).
  - by repeat constructor.
  - reflexivity.
  - reflexivity.
  - reflexivity.
Defined.

Lemma turn_keeps_balance_witness :
  match Chat.turn (fun _ _ => "reply")
                  (Chat.mk_chat ["u"] ["b"]
                                [Chat.Line "hi"; Chat.Line ""; Chat.CtrlC] [])
  with
  | (Chat.Continue, st') =>
      length (Chat.user_messages st') = length (Chat.bot_messages st')
      \/ length (Chat.user_messages st') = length (Chat.bot_messages st') + 1
  | (Chat.Break, st') =>
      Chat.user_messages st' = ["u"] /\ Chat.bot_messages st' = ["b"]
  | (Chat.Uncaught e, _) => e = EOFError
  end.
Proof.
  apply (turn_keeps_balance (fun _ _ => "reply")
           (Chat.mk_chat ["u"] ["b"]
                         [Chat.Line "hi"; Chat.Line ""; Chat.CtrlC] [])).
  reflexivity.
Defined.

Lemma format_fresh_store_witness :
  (format_session_outputs
     (generate_sessions [("q1", mk_question "2+2?" None)]).1).2
  = Some (KeyError "answers").
Proof.
  rewrite (format_fresh_store [("q1", mk_question "2+2?" None)]).
  - reflexivity.
  - done.
  - apply (bool_decide_unpack _). by vm_compute.
Defined.
